(** * Auto-scaling engine and singly linked list: a shallow embedding

    The development follows two source files of the repository:

    - [nasa-fire-port/src/core/auto_scaler.py]: the [AutoScaler] decision
      policy ([add_metrics], [should_scale], [execute_scaling]);
    - [learning-projects/python/data-structures/linked-list/linked_list.py]:
      the operations of [LinkedList] and [merge_sorted_lists].

    Conventions of the embedding:

    - Python's [float] is IEEE 754 binary64.  It is modelled by the standard
      library's executable specification [SpecFloat] at precision 53 and
      maximal exponent 1024, so that every rounding, every infinity and
      every NaN of the program is the one of the model.
    - Python's [int] is [Z].  Where the program mixes the two ([x - n],
      [n * x]) the integer is converted first, and the conversion raises
      [OverflowError] when the integer is out of the range of the format.
    - A method is a computation over the state of its object that returns
      or raises; [try ... except] is a combinator on such computations.
    - [time.time()] is an argument of the method that reads it.
    - [statistics.mean] is a parameter of the methods that call it; its
      CPython definition is given apart and used on concrete histories.
    - The comparisons [==], [>] and [<=] of the data of a list are
      parameters of the methods that make them.  The [while swapped] loop of
      [sort], which need not end, runs on fuel.
    - Logging is left out. *)

From Stdlib Require Import ZArith List Bool Lia SpecFloat Sorted Permutation.
Import ListNotations.
Local Open Scope Z_scope.

(** ** Exceptions *)

(** The exceptions the modelled code can raise. *)
Inductive exn : Type :=
  | OverflowError    (* int too large for a float, or [int(inf)] *)
  | ValueError       (* [int(nan)] *)
  | IndexError       (* linked list: position out of range *)
  | AttributeError.  (* linked list: attribute access on [None] *)

(** A computation that returns a value or raises. *)
Inductive result (A : Type) : Type :=
  | Ok (a : A)
  | Raise (e : exn).
Arguments Ok {A} a.
Arguments Raise {A} e.

(** Methods run on a mutable object: a computation takes the object's state,
    returns or raises, and leaves a state behind in both cases (an exception
    does not roll back what was assigned before it). *)
Definition M (S A : Type) : Type := S -> result A * S.

Definition ret {S A : Type} (a : A) : M S A := fun s => (Ok a, s).

Definition bind {S A B : Type} (c : M S A) (k : A -> M S B) : M S B :=
  fun s =>
    match c s with
    | (Ok a, s') => k a s'
    | (Raise e, s') => (Raise e, s')
    end.

Definition get {S : Type} : M S S := fun s => (Ok s, s).
Definition put {S : Type} (s : S) : M S unit := fun _ => (Ok tt, s).
Definition raise {S A : Type} (e : exn) : M S A := fun s => (Raise e, s).

(** A pure computation that may raise, run inside a method. *)
Definition lift {S A : Type} (r : result A) : M S A := fun s => (r, s).

(** [try: body except Exception: handler]; the handler starts from the state
    the body had reached when it raised. *)
Definition try_except {S A : Type} (body : M S A) (handler : exn -> M S A) : M S A :=
  fun s =>
    match body s with
    | (Ok a, s') => (Ok a, s')
    | (Raise e, s') => handler e s'
    end.

Notation "x <- c ;; k" := (bind c (fun x => k))
  (at level 61, c at next level, right associativity).
Notation "c ;;; k" := (bind c (fun _ => k))
  (at level 61, right associativity).

(** ** Python floats *)

Module Float.

Definition prec : Z := 53.
Definition emax : Z := 1024.

Definition float : Type := spec_float.

Definition add : float -> float -> float := SFadd prec emax.
Definition sub : float -> float -> float := SFsub prec emax.
Definition mul : float -> float -> float := SFmul prec emax.
(** The divisors of the modelled code are the non-zero literals 100, 1000
    and 2000, so Python's [ZeroDivisionError] never arises. *)
Definition div : float -> float -> float := SFdiv prec emax.

(** [x < y] and [x <= y]; both are [False] when an operand is NaN. *)
Definition ltb : float -> float -> bool := SFltb.
Definition leb : float -> float -> bool := SFleb.

(** The float nearest to an integer (ties to even); an infinity when the
    integer is beyond the range of the format. *)
Definition of_Z (n : Z) : float := binary_normalize prec emax n 0 false.

(** Conversion of an [int] operand in mixed arithmetic ([x - n], [n * x]):
    CPython raises [OverflowError] when the integer does not fit. *)
Definition of_int (n : Z) : result float :=
  match of_Z n with
  | S754_infinity _ => Raise OverflowError
  | x => Ok x
  end.

(** [int(x)]: truncation toward zero. *)
Definition to_int (x : float) : result Z :=
  match x with
  | S754_nan => Raise ValueError
  | S754_infinity _ => Raise OverflowError
  | S754_zero _ => Ok 0
  | S754_finite s m e => Ok (cond_Zopp s (Z.shiftl (Zpos m) e))
  end.

(** The floor of a finite float, the integer [int(x)] is when [x] is not
    negative. *)
Definition floor (x : float) : option Z :=
  match x with
  | S754_zero _ => Some 0
  | S754_finite s m e => Some (Z.shiftl (cond_Zopp s (Zpos m)) e)
  | _ => None
  end.

(** Comparison of a float with an [int]: CPython compares the two exactly,
    without converting the integer. *)
Definition compare_int (x : float) (n : Z) : option comparison :=
  match x with
  | S754_nan => None
  | S754_infinity s => Some (if s then Lt else Gt)
  | S754_zero _ => Some (0 ?= n)
  | S754_finite s m e =>
      Some (match e with
            | Zneg p => cond_Zopp s (Zpos m) ?= n * 2 ^ Zpos p
            | _ => cond_Zopp s (Zpos m) * 2 ^ e ?= n
            end)
  end.

(** [x < n] and [x > n] for an integer [n]. *)
Definition ltb_int (x : float) (n : Z) : bool :=
  match compare_int x n with Some Lt => true | _ => false end.
Definition gtb_int (x : float) (n : Z) : bool :=
  match compare_int x n with Some Gt => true | _ => false end.

(** The builtin [min(a, b)] on two arguments: [b] when [b < a], else [a]
    (so a NaN first argument is returned as it is). *)
Definition min (a b : float) : float := if ltb b a then b else a.

(** Literals of the source, as the floats nearest to the decimals. *)
Definition zero : float := S754_zero false.
Definition one : float := Eval cbv in of_Z 1.
Definition lit_0_2 : float := Eval cbv in div (of_Z 2) (of_Z 10).
Definition lit_0_4 : float := Eval cbv in div (of_Z 4) (of_Z 10).
Definition lit_0_7 : float := Eval cbv in div (of_Z 7) (of_Z 10).
Definition lit_0_9 : float := Eval cbv in div (of_Z 9) (of_Z 10).
Definition lit_100 : float := Eval cbv in of_Z 100.
Definition lit_1000 : float := Eval cbv in of_Z 1000.
Definition lit_2000 : float := Eval cbv in of_Z 2000.

End Float.

Import Float.

(** ** The auto-scaler: data model *)

Inductive ScalingAction : Type :=
  | SCALE_UP
  | SCALE_DOWN
  | NO_ACTION.

(** A Python number that is an [int] or a [float]: [active_connections] is an
    [int] in a collected sample and whatever [statistics.mean] returns in an
    averaged one. *)
Inductive number : Type :=
  | Int (n : Z)
  | Flt (x : float).

Record SystemMetrics : Type := {
  cpu_usage : float;
  memory_usage : float;
  disk_usage : float;
  network_io : float;
  active_connections : number;
  response_time : float;
  timestamp : float
}.

Record ScalingConfig : Type := {
  min_instances : Z;
  max_instances : Z;
  scale_up_threshold : float;
  scale_down_threshold : float;
  cooldown_period : Z;
  metrics_window : Z;
  scale_up_factor : float;
  scale_down_factor : float
}.

(** The state of an [AutoScaler] (the logger is left out).
    [last_scaling_time] starts as the integer 0, which the only expression
    that reads it, [time.time() - self.last_scaling_time], converts to 0.0. *)
Record AutoScaler : Type := {
  config : ScalingConfig;
  current_instances : Z;
  metrics_history : list SystemMetrics;
  last_scaling_time : float
}.

Definition set_current_instances (self : AutoScaler) (n : Z) : AutoScaler :=
  {| config := config self;
     current_instances := n;
     metrics_history := metrics_history self;
     last_scaling_time := last_scaling_time self |}.

Definition set_metrics_history (self : AutoScaler) (h : list SystemMetrics) : AutoScaler :=
  {| config := config self;
     current_instances := current_instances self;
     metrics_history := h;
     last_scaling_time := last_scaling_time self |}.

Definition set_last_scaling_time (self : AutoScaler) (t : float) : AutoScaler :=
  {| config := config self;
     current_instances := current_instances self;
     metrics_history := metrics_history self;
     last_scaling_time := t |}.

(** [AutoScaler.__init__] *)
Definition init (cfg : ScalingConfig) : AutoScaler :=
  {| config := cfg;
     current_instances := min_instances cfg;
     metrics_history := [];
     last_scaling_time := zero |}.

(** ** The auto-scaler: operations

    Every method takes the reading of [time.time()] it makes as the argument
    [now].  [statistics.mean] belongs to Python's library: the methods take
    it as the parameters [mean] (on the float fields) and [mean_number] (on
    [active_connections]). *)
Section Scaler.

Variable mean : list float -> float.
Variable mean_number : list number -> number.

(** [AutoScaler.add_metrics] *)
Definition add_metrics (metrics : SystemMetrics) (now : float) : M AutoScaler unit :=
  self <- get ;;
  put (set_metrics_history self (metrics_history self ++ [metrics])) ;;;
  self <- get ;;
  window <- lift (of_int (metrics_window (config self))) ;;
  let cutoff_time := sub now window in
  put (set_metrics_history self
         (filter (fun m => leb cutoff_time (timestamp m)) (metrics_history self))).

(** [AutoScaler._calculate_average_metrics].  On an empty history the source
    fills the record with the integer 0, written here as the float 0.0 in
    the float fields; [should_scale] averages five samples at least. *)
Definition _calculate_average_metrics (self : AutoScaler) (now : float) : SystemMetrics :=
  match metrics_history self with
  | [] =>
      {| cpu_usage := zero; memory_usage := zero; disk_usage := zero;
         network_io := zero; active_connections := Int 0;
         response_time := zero; timestamp := now |}
  | h =>
      {| cpu_usage := mean (map cpu_usage h);
         memory_usage := mean (map memory_usage h);
         disk_usage := mean (map disk_usage h);
         network_io := mean (map network_io h);
         active_connections := mean_number (map active_connections h);
         response_time := mean (map response_time h);
         timestamp := now |}
  end.

(** [AutoScaler._should_scale_up] *)
Definition _should_scale_up (self : AutoScaler) (metrics : SystemMetrics) : bool :=
  (ltb (scale_up_threshold (config self)) (cpu_usage metrics)
   || ltb (scale_up_threshold (config self)) (memory_usage metrics)
   || gtb_int (response_time metrics) 1000)
  && (current_instances self <? max_instances (config self)).

(** [AutoScaler._should_scale_down] *)
Definition _should_scale_down (self : AutoScaler) (metrics : SystemMetrics) : bool :=
  (ltb (cpu_usage metrics) (scale_down_threshold (config self))
   && ltb (memory_usage metrics) (scale_down_threshold (config self))
   && ltb_int (response_time metrics) 200)
  && (min_instances (config self) <? current_instances self).

(** [AutoScaler._calculate_scale_up_confidence] *)
Definition _calculate_scale_up_confidence (metrics : SystemMetrics) : float :=
  let cpu_factor := min (div (cpu_usage metrics) lit_100) one in
  let memory_factor := min (div (memory_usage metrics) lit_100) one in
  let response_factor := min (div (response_time metrics) lit_2000) one in
  let confidence :=
    add (add (mul cpu_factor lit_0_4) (mul memory_factor lit_0_4))
        (mul response_factor lit_0_2) in
  min confidence one.

(** [AutoScaler._calculate_scale_down_confidence] *)
Definition _calculate_scale_down_confidence (metrics : SystemMetrics) : float :=
  let cpu_factor := sub one (div (cpu_usage metrics) lit_100) in
  let memory_factor := sub one (div (memory_usage metrics) lit_100) in
  let response_factor := sub one (div (response_time metrics) lit_1000) in
  let confidence :=
    add (add (mul cpu_factor lit_0_4) (mul memory_factor lit_0_4))
        (mul response_factor lit_0_2) in
  min confidence one.

(** [AutoScaler.should_scale]; the method reads the state and assigns
    nothing.  The clock is read for the cooldown test; the second reading,
    inside [_calculate_average_metrics], only stamps the averaged sample. *)
Definition should_scale (self : AutoScaler) (now : float) : ScalingAction * float :=
  if (Z.of_nat (length (metrics_history self)) <? 5) then (NO_ACTION, zero)
  else if ltb_int (sub now (last_scaling_time self)) (cooldown_period (config self))
  then (NO_ACTION, zero)
  else
    let avg_metrics := _calculate_average_metrics self now in
    if _should_scale_up self avg_metrics then
      (SCALE_UP, _calculate_scale_up_confidence avg_metrics)
    else if _should_scale_down self avg_metrics then
      (SCALE_DOWN, _calculate_scale_down_confidence avg_metrics)
    else (NO_ACTION, zero).

(** [AutoScaler._scale_up] and [AutoScaler._scale_down] *)
Definition _scale_up (target_instances : Z) : M AutoScaler unit :=
  self <- get ;; put (set_current_instances self target_instances).

Definition _scale_down (target_instances : Z) : M AutoScaler unit :=
  self <- get ;; put (set_current_instances self target_instances).

(** [int(self.current_instances * factor)] *)
Definition scaled_instances (current : Z) (factor : float) : result Z :=
  match of_int current with
  | Ok c => to_int (mul c factor)
  | Raise e => Raise e
  end.

(** [AutoScaler.execute_scaling] *)
Definition execute_scaling (action : ScalingAction) (confidence : float) (now : float)
  : M AutoScaler bool :=
  if ltb confidence lit_0_7 then ret false
  else
    try_except
      (match action with
       | SCALE_UP =>
           self <- get ;;
           n <- lift (scaled_instances (current_instances self)
                        (scale_up_factor (config self))) ;;
           _scale_up (Z.min n (max_instances (config self)))
       | SCALE_DOWN =>
           self <- get ;;
           n <- lift (scaled_instances (current_instances self)
                        (scale_down_factor (config self))) ;;
           _scale_down (Z.max n (min_instances (config self)))
       | NO_ACTION => ret tt
       end ;;;
       self <- get ;;
       put (set_last_scaling_time self now) ;;;
       ret true)
      (fun _ => ret false).

End Scaler.

(** ** [statistics.mean], as CPython computes it

    The sum is exact (every finite float is an integer times a power of two)
    and the quotient by the number of samples is rounded once, to nearest
    with ties to even.  When a sample is an infinity or a NaN, the result is
    the float sum of those samples divided by the count.  The functions below
    instantiate the parameters [mean] and [mean_number] on concrete
    histories. *)
Module Statistics.

(** [(n, e)] stands for the number [n * 2 ^ e]. *)
Definition exact_add (acc : Z * Z) (x : Z * Z) : Z * Z :=
  let e := Z.min (snd acc) (snd x) in
  (fst acc * 2 ^ (snd acc - e) + fst x * 2 ^ (snd x - e), e).

Definition exact_ratio (x : float) : option (Z * Z) :=
  match x with
  | S754_zero _ => Some (0, 0)
  | S754_finite s m e => Some (cond_Zopp s (Zpos m), e)
  | _ => None
  end.

Definition is_finite (x : float) : bool :=
  match exact_ratio x with Some _ => true | None => false end.

(** The correctly rounded quotient of [n * 2 ^ e] by [count]. *)
Definition round_quotient (ne : Z * Z) (count : positive) : float :=
  match fst ne with
  | Z0 => zero
  | Zpos m => div (S754_finite false m (snd ne)) (S754_finite false count 0)
  | Zneg m => div (S754_finite true m (snd ne)) (S754_finite false count 0)
  end.

Definition exact_sum (xs : list float) : Z * Z :=
  fold_left
    (fun acc x => match exact_ratio x with Some r => exact_add acc r | None => acc end)
    xs (0, 0).

Definition mean (xs : list float) : float :=
  match Z.of_nat (length xs) with
  | Zpos count =>
      match filter (fun x => negb (is_finite x)) xs with
      | [] => round_quotient (exact_sum xs) count
      | special => div (fold_left add special zero) (of_Z (Zpos count))
      end
  | _ => S754_nan   (* [StatisticsError] on an empty list; never called so *)
  end.

Definition number_ratio (x : number) : option (Z * Z) :=
  match x with
  | Int n => Some (n, 0)
  | Flt f => exact_ratio f
  end.

(** On integers the mean is an [int] when it is integral, else the float
    nearest to it; a list that holds a float is averaged as floats. *)
Definition mean_number (xs : list number) : number :=
  match Z.of_nat (length xs) with
  | Zpos count =>
      if forallb (fun x => match x with Int _ => true | Flt _ => false end) xs then
        let total :=
          fold_left (fun acc x => match x with Int n => acc + n | Flt _ => acc end) xs 0 in
        if total mod Zpos count =? 0 then Int (total / Zpos count)
        else Flt (round_quotient (total, 0) count)
      else
        Flt (mean (map (fun x => match x with Int n => of_Z n | Flt f => f end) xs))
  | _ => Flt S754_nan
  end.

End Statistics.

(** ** The singly linked list

    A chain of nodes is the list of their data, the empty list being [None].
    The [size] counter is a field of its own, as in the source. *)
Module LinkedList.
Section Defs.

Variable A : Type.

Record LinkedList : Type := {
  head : list A;
  size : Z
}.

(** [LinkedList.__init__] *)
Definition empty : LinkedList := {| head := []; size := 0 |}.

(** [LinkedList.is_empty] *)
Definition is_empty (self : LinkedList) : bool :=
  match head self with [] => true | _ => false end.

(** [LinkedList.insert_at_beginning] *)
Definition insert_at_beginning (data : A) : M LinkedList unit :=
  self <- get ;;
  put {| head := data :: head self; size := size self + 1 |}.

(** [LinkedList.insert_at_end] *)
Definition insert_at_end (data : A) : M LinkedList unit :=
  self <- get ;;
  put {| head := head self ++ [data]; size := size self + 1 |}.

(** [current = self.head; for _ in range(steps): current = current.next]:
    the nodes passed over and the chain that starts at [current].  Reading
    [next] on [None] raises [AttributeError]. *)
Fixpoint walk (steps : nat) (current : list A) : result (list A * list A) :=
  match steps with
  | O => Ok ([], current)
  | S k =>
      match current with
      | [] => Raise AttributeError
      | x :: next =>
          match walk k next with
          | Ok (passed, reached) => Ok (x :: passed, reached)
          | Raise e => Raise e
          end
      end
  end.

(** [LinkedList.insert_at_position] *)
Definition insert_at_position (data : A) (position : Z) : M LinkedList unit :=
  self <- get ;;
  if (position <? 0) || (size self <? position) then raise IndexError
  else if position =? 0 then insert_at_beginning data
  else
    w <- lift (walk (Z.to_nat (position - 1)) (head self)) ;;
    match snd w with
    | [] => raise AttributeError          (* [current.next] on [None] *)
    | x :: next =>
        put {| head := fst w ++ x :: data :: next; size := size self + 1 |}
    end.

(** [LinkedList.delete_by_position] *)
Definition delete_by_position (position : Z) : M LinkedList A :=
  self <- get ;;
  if (position <? 0) || (size self <=? position) then raise IndexError
  else if position =? 0 then
    match head self with
    | [] => raise AttributeError          (* [self.head.data] on [None] *)
    | data :: next =>
        put {| head := next; size := size self - 1 |} ;;;
        ret data
    end
  else
    w <- lift (walk (Z.to_nat (position - 1)) (head self)) ;;
    match snd w with
    | [] => raise AttributeError          (* [current.next] on [None] *)
    | x :: [] => raise AttributeError     (* [current.next.data] on [None] *)
    | x :: data :: next =>
        put {| head := fst w ++ x :: next; size := size self - 1 |} ;;;
        ret data
    end.

(** [LinkedList.get_element_at_position] *)
Definition get_element_at_position (position : Z) : M LinkedList A :=
  self <- get ;;
  if (position <? 0) || (size self <=? position) then raise IndexError
  else
    w <- lift (walk (Z.to_nat position) (head self)) ;;
    match snd w with
    | [] => raise AttributeError          (* [current.data] on [None] *)
    | data :: _ => ret data
    end.

(** The counter agrees with the chain: every list built from [empty] by
    the methods satisfies it. *)
Definition well_formed (self : LinkedList) : Prop :=
  size self = Z.of_nat (length (head self)).

End Defs.

(** The methods that compare the data: [==] is [eqb], [>] is [gtb] and [<=]
    is [leb], whatever the class of the data makes them. *)
Section Methods.

Variable A : Type.
Variable eqb : A -> A -> bool.
Variable gtb : A -> A -> bool.
Variable leb : A -> A -> bool.

(** [LinkedList.get_size] and [LinkedList.__len__] *)
Definition get_size : M (LinkedList A) Z :=
  self <- get ;; ret (size A self).

(** [LinkedList.to_list] *)
Definition to_list : M (LinkedList A) (list A) :=
  self <- get ;; ret (head A self).

(** The loop of [delete_by_value], [current] being a node whose data is not
    the one looked for: the chain from [current] with the first matching
    node after it unlinked, or nothing when the chain ends first. *)
Fixpoint delete_after (current : A) (next : list A) (data : A) : option (list A) :=
  match next with
  | [] => None
  | y :: rest =>
      if eqb y data then Some (current :: rest)
      else
        match delete_after y rest data with
        | Some chain => Some (current :: chain)
        | None => None
        end
  end.

(** [LinkedList.delete_by_value] *)
Definition delete_by_value (data : A) : M (LinkedList A) bool :=
  self <- get ;;
  match head A self with
  | [] => ret false
  | x :: next =>
      if eqb x data then
        put {| head := next; size := size A self - 1 |} ;;;
        ret true
      else
        match delete_after x next data with
        | Some chain =>
            put {| head := chain; size := size A self - 1 |} ;;;
            ret true
        | None => ret false
        end
  end.

(** The loop of [search] from the node [current] at index [position]. *)
Fixpoint search_from (current : list A) (position : Z) (data : A) : Z :=
  match current with
  | [] => -1
  | x :: next =>
      if eqb x data then position else search_from next (position + 1) data
  end.

(** [LinkedList.search] *)
Definition search (data : A) : M (LinkedList A) Z :=
  self <- get ;; ret (search_from (head A self) 0 data).

(** The loop of [reverse]: the nodes of [current] are relinked one by one in
    front of [previous]. *)
Fixpoint reverse_loop (previous current : list A) : list A :=
  match current with
  | [] => previous
  | x :: next => reverse_loop (x :: previous) next
  end.

(** [LinkedList.reverse] *)
Definition reverse : M (LinkedList A) unit :=
  self <- get ;;
  match head A self with
  | [] => ret tt
  | [_] => ret tt
  | _ => put {| head := reverse_loop [] (head A self); size := size A self |}
  end.

(** One pass of the inner loop of [sort] from a node whose data is [x]: the
    data are swapped along the chain, and the flag tells whether a swap was
    made. *)
Fixpoint bubble (x : A) (next : list A) : list A * bool :=
  match next with
  | [] => ([x], false)
  | y :: rest =>
      if gtb x y then (y :: fst (bubble x rest), true)
      else (x :: fst (bubble y rest), snd (bubble y rest))
  end.

(** [while swapped]: passes are made until one swaps nothing.  The loop need
    not end when [>] is not an order, so it runs on [fuel]; [None] stands for
    a loop that is still running. *)
Fixpoint sort_loop (fuel : nat) (x : A) (next : list A) : option (list A) :=
  match fuel with
  | O => None
  | S fuel' =>
      let (chain, swapped) := bubble x next in
      if swapped then
        match chain with
        | [] => Some []
        | x' :: next' => sort_loop fuel' x' next'
        end
      else Some chain
  end.

(** [LinkedList.sort] *)
Definition sort (fuel : nat) (self : LinkedList A) : option (LinkedList A) :=
  match head A self with
  | [] => Some self
  | [_] => Some self
  | x :: next =>
      match sort_loop fuel x next with
      | Some chain => Some {| head := chain; size := size A self |}
      | None => None
      end
  end.

(** The loop of [remove_duplicates] from a node whose data is [x]: the chain
    that is left and the number of nodes unlinked. *)
Fixpoint remove_repeats (x : A) (next : list A) : list A * Z :=
  match next with
  | [] => ([x], 0)
  | y :: rest =>
      if eqb x y then (fst (remove_repeats x rest), snd (remove_repeats x rest) + 1)
      else (x :: fst (remove_repeats y rest), snd (remove_repeats y rest))
  end.

(** [LinkedList.remove_duplicates] *)
Definition remove_duplicates : M (LinkedList A) unit :=
  self <- get ;;
  match head A self with
  | [] => ret tt
  | [_] => ret tt
  | x :: next =>
      put {| head := fst (remove_repeats x next);
             size := size A self - snd (remove_repeats x next) |}
  end.

(** The loop of [find_middle]: [slow] moves one node while [fast] moves
    two. *)
Fixpoint middle_loop (slow fast : list A) : result A :=
  match fast with
  | _ :: _ :: fast' =>
      match slow with
      | [] => Raise AttributeError        (* [slow.next] on [None] *)
      | _ :: slow' => middle_loop slow' fast'
      end
  | _ =>
      match slow with
      | [] => Raise AttributeError        (* [slow.data] on [None] *)
      | x :: _ => Ok x
      end
  end.

(** [LinkedList.find_middle] *)
Definition find_middle : M (LinkedList A) (option A) :=
  self <- get ;;
  match head A self with
  | [] => ret None
  | _ =>
      x <- lift (middle_loop (head A self) (head A self)) ;;
      ret (Some x)
  end.

(** The two closing loops of [merge_sorted_lists]: what is left of a chain
    is appended node by node. *)
Definition append_all (current : list A) (merged : LinkedList A) : LinkedList A :=
  fold_left (fun m data => snd (insert_at_end A data m)) current merged.

(** The first loop of [merge_sorted_lists], followed by the two others. *)
Fixpoint merge_loop (current1 : list A) : list A -> LinkedList A -> LinkedList A :=
  fix merge_right (current2 : list A) (merged : LinkedList A) {struct current2}
    : LinkedList A :=
    match current1, current2 with
    | x :: next1, y :: next2 =>
        if leb x y then merge_loop next1 current2 (snd (insert_at_end A x merged))
        else merge_right next2 (snd (insert_at_end A y merged))
    | _, _ => append_all current2 (append_all current1 merged)
    end.

(** [merge_sorted_lists] *)
Definition merge_sorted_lists (list1 list2 : LinkedList A) : LinkedList A :=
  merge_loop (head A list1) (head A list2) (empty A).

End Methods.

End LinkedList.

(** * The words of the specification

    The decision of [should_scale] and the formula of [execute_scaling] as
    the specification states them, the predicates the properties are about,
    and the concrete configurations and scalers they are tried on. *)

(** ** Reading the averages *)

Section Averages.

Variable mean : list float -> float.

(** The three averages the decision reads. *)
Definition mean_cpu (self : AutoScaler) : float :=
  mean (map cpu_usage (metrics_history self)).
Definition mean_memory (self : AutoScaler) : float :=
  mean (map memory_usage (metrics_history self)).
Definition mean_response_time (self : AutoScaler) : float :=
  mean (map response_time (metrics_history self)).





End Averages.


(** ** Floats of the format, their sign and what they stand for *)

(** The floats of the format: a finite one has a canonical mantissa and an
    exponent in range. *)
Definition valid (x : float) : Prop := valid_binary prec emax x = true.

(** [0.0 <= x]: a zero of either sign, a positive number or [+inf]. *)
Definition nonneg (x : float) : Prop :=
  match x with
  | S754_zero _ => True
  | S754_infinity s | S754_finite s _ _ => s = false
  | S754_nan => False
  end.


(** The record no longer stands for its mantissa alone: a bit was lost. *)
Definition inexact (mrs : shr_record) : bool := shr_r mrs || shr_s mrs.

(** [b] is [a] shifted right by [k] bits. *)
Definition shifted (k : Z) (a b : shr_record) : Prop :=
  0 <= shr_m b
  /\ shr_m b = shr_m a / 2 ^ k
  /\ (inexact b = false <-> inexact a = false /\ shr_m a mod 2 ^ k = 0).

Section Nominal.

Variable mean : list float -> float.


End Nominal.

(** ** The scaling formula and the bounds on the instance count *)

(** The instance count a decision asks for: the scaling formula of
    [execute_scaling], which raises when the product cannot be converted. *)
Definition scaling_target (self : AutoScaler) (action : ScalingAction) : result Z :=
  match action with
  | SCALE_UP =>
      match scaled_instances (current_instances self) (scale_up_factor (config self)) with
      | Ok n => Ok (Z.min n (max_instances (config self)))
      | Raise e => Raise e
      end
  | SCALE_DOWN =>
      match scaled_instances (current_instances self) (scale_down_factor (config self)) with
      | Ok n => Ok (Z.max n (min_instances (config self)))
      | Raise e => Raise e
      end
  | NO_ACTION => Ok (current_instances self)
  end.

(** The state after a decision was applied at time [now]. *)
Definition applied (self : AutoScaler) (n : Z) (now : float) : AutoScaler :=
  {| config := config self;
     current_instances := n;
     metrics_history := metrics_history self;
     last_scaling_time := now |}.

(** The product of the instance count by a factor, floored: the reading of
    the specification.  It is undefined when the product is not a finite
    number. *)
Definition floor_scaled (current : Z) (factor : float) : option Z :=
  match of_int current with
  | Ok c => floor (mul c factor)
  | Raise _ => None
  end.

(** Any sequence of [execute_scaling] calls, each with its action, its
    confidence and its clock reading. *)
Fixpoint run_scaling (calls : list (ScalingAction * float * float)) (self : AutoScaler)
  : AutoScaler :=
  match calls with
  | [] => self
  | (action, confidence, now) :: rest =>
      run_scaling rest (snd (execute_scaling action confidence now self))
  end.

(** The invariant on the instance count. *)
Definition within_bounds (self : AutoScaler) : Prop :=
  min_instances (config self) <= current_instances self <= max_instances (config self).

(** A configuration under which scaling up never lowers the count and
    scaling down never raises it: bounds between 0 and [2 ^ 53], a scale-up
    factor of at least 1.0, a scale-down factor between 0.0 and 1.0. *)
Definition sound_config (cfg : ScalingConfig) : Prop :=
  0 <= min_instances cfg <= max_instances cfg
  /\ max_instances cfg < 2 ^ 53
  /\ valid (scale_up_factor cfg) /\ leb one (scale_up_factor cfg) = true
  /\ valid (scale_down_factor cfg)
  /\ leb zero (scale_down_factor cfg) = true
  /\ leb (scale_down_factor cfg) one = true.

(** ** Configurations and scalers *)

(** The configuration of the source: the defaults of [ScalingConfig]. *)
Definition default_config : ScalingConfig :=
  {| min_instances := 2;
     max_instances := 10;
     scale_up_threshold := of_Z 70;
     scale_down_threshold := of_Z 30;
     cooldown_period := 300;
     metrics_window := 60;
     scale_up_factor := div (of_Z 15) (of_Z 10);
     scale_down_factor := lit_0_7 |}.

(** The count leaves its bounds when a factor is on the wrong side of 1.0:
    with the default bounds 2 and 10 and a scale-up factor of 0.1, one
    scale-up from the initial state takes the 2 instances to 0. *)
Definition shrinking_config : ScalingConfig :=
  {| min_instances := 2;
     max_instances := 10;
     scale_up_threshold := of_Z 70;
     scale_down_threshold := of_Z 30;
     cooldown_period := 300;
     metrics_window := 60;
     scale_up_factor := div (of_Z 1) (of_Z 10);
     scale_down_factor := lit_0_7 |}.

(** A scaler with 3 instances whose scale-up factor is -0.5. *)
Definition negative_factor_config : ScalingConfig :=
  {| min_instances := 3;
     max_instances := 10;
     scale_up_threshold := of_Z 70;
     scale_down_threshold := of_Z 30;
     cooldown_period := 300;
     metrics_window := 60;
     scale_up_factor := div (of_Z (-1)) (of_Z 2);
     scale_down_factor := lit_0_7 |}.

(** A fault inside [execute_scaling]: with an infinite scale-up factor the
    product is [inf], [int(inf)] raises, and the call returns [False] with
    the state untouched. *)
Definition infinite_factor_config : ScalingConfig :=
  {| min_instances := 2;
     max_instances := 10;
     scale_up_threshold := of_Z 70;
     scale_down_threshold := of_Z 30;
     cooldown_period := 300;
     metrics_window := 60;
     scale_up_factor := S754_infinity false;
     scale_down_factor := lit_0_7 |}.

(** A window too large for a float: the subtraction raises. *)
Definition huge_window_config : ScalingConfig :=
  {| min_instances := 2;
     max_instances := 10;
     scale_up_threshold := of_Z 70;
     scale_down_threshold := of_Z 30;
     cooldown_period := 300;
     metrics_window := 2 ^ 1024;
     scale_up_factor := div (of_Z 15) (of_Z 10);
     scale_down_factor := lit_0_7 |}.

(** A sample with the given cpu, memory, response time and timestamp. *)
Definition sample (cpu memory response time : Z) : SystemMetrics :=
  {| cpu_usage := of_Z cpu;
     memory_usage := of_Z memory;
     disk_usage := of_Z 50;
     network_io := of_Z 50;
     active_connections := Int 100;
     response_time := of_Z response;
     timestamp := of_Z time |}.

(** Five times the same sample, in a scaler with [current] instances that
    last scaled at time 0. *)
Definition steady (current : Z) (s : SystemMetrics) : AutoScaler :=
  set_current_instances (set_metrics_history (init default_config) [s; s; s; s; s]) current.

(** Mean cpu 80, memory 50, response time 500: a busy system. *)
Definition busy : AutoScaler := steady 2 (sample 80 50 500 1000).

(** Mean cpu 20, memory 20, response time 100: an idle system. *)
Definition idle : AutoScaler := steady 5 (sample 20 20 100 1000).

(** A mean cpu of -1000 beside a memory usage of 80. *)
Definition negative_cpu : AutoScaler := steady 2 (sample (-1000) 80 500 1000).

(** A scaler with 4 instances, a scale-up factor of 1.5 and at most 10
    instances. *)
Definition four_instances : AutoScaler :=
  set_current_instances (init default_config) 4.

(** The concrete scalers are states the methods reach: five [add_metrics]
    calls at time 1000 from the initial state give [negative_cpu]. *)
Fixpoint feed (samples : list SystemMetrics) (now : float) (self : AutoScaler)
  : AutoScaler :=
  match samples with
  | [] => self
  | s :: rest => feed rest now (snd (add_metrics s now self))
  end.

(** Five samples whose cpu usage is NaN beside a memory usage of 80. *)
Definition nan_cpu : AutoScaler :=
  steady 2
    {| cpu_usage := S754_nan;
       memory_usage := of_Z 80;
       disk_usage := of_Z 50;
       network_io := of_Z 50;
       active_connections := Int 100;
       response_time := of_Z 500;
       timestamp := of_Z 1000 |}.

(** ** Calls on a linked list *)

(** The methods that change a list, and the state each leaves. *)
Inductive mutation (A : Type) : Type :=
  | InsertAtBeginning (data : A)
  | InsertAtEnd (data : A)
  | InsertAtPosition (data : A) (position : Z)
  | DeleteByValue (data : A)
  | DeleteByPosition (position : Z)
  | Reverse
  | RemoveDuplicates.
Arguments InsertAtBeginning {A} data.
Arguments InsertAtEnd {A} data.
Arguments InsertAtPosition {A} data position.
Arguments DeleteByValue {A} data.
Arguments DeleteByPosition {A} position.
Arguments Reverse {A}.
Arguments RemoveDuplicates {A}.

Definition mutate {A : Type} (eqb : A -> A -> bool) (call : mutation A)
  (self : LinkedList.LinkedList A) : LinkedList.LinkedList A :=
  match call with
  | InsertAtBeginning data => snd (LinkedList.insert_at_beginning A data self)
  | InsertAtEnd data => snd (LinkedList.insert_at_end A data self)
  | InsertAtPosition data position =>
      snd (LinkedList.insert_at_position A data position self)
  | DeleteByValue data => snd (LinkedList.delete_by_value A eqb data self)
  | DeleteByPosition position => snd (LinkedList.delete_by_position A position self)
  | Reverse => snd (LinkedList.reverse A self)
  | RemoveDuplicates => snd (LinkedList.remove_duplicates A eqb self)
  end.

(** No two neighbours of the chain are equal under [==]. *)
Definition no_repeat {A : Type} (eqb : A -> A -> bool) (chain : list A) : Prop :=
  Sorted (fun x y => eqb x y = false) chain.

(** No node of the chain is above its successor under [>]. *)
Definition ascending {A : Type} (gtb : A -> A -> bool) (chain : list A) : Prop :=
  Sorted (fun x y => gtb x y = false) chain.

(** The number of data of the chain that [x] is above. *)
Fixpoint count_above {A : Type} (gtb : A -> A -> bool) (x : A) (chain : list A) : nat :=
  match chain with
  | [] => O
  | y :: rest => ((if gtb x y then 1 else 0) + count_above gtb x rest)%nat
  end.

(** The number of pairs of the chain that are out of order. *)
Fixpoint inversions {A : Type} (gtb : A -> A -> bool) (chain : list A) : nat :=
  match chain with
  | [] => O
  | x :: rest => (count_above gtb x rest + inversions gtb rest)%nat
  end.

(** The chain [merge_sorted_lists] builds from two chains. *)
Fixpoint merged_chain {A : Type} (leb : A -> A -> bool) (chain1 : list A)
  : list A -> list A :=
  fix merged_right (chain2 : list A) : list A :=
    match chain1, chain2 with
    | x :: next1, y :: next2 =>
        if leb x y then x :: merged_chain leb next1 chain2
        else y :: merged_right next2
    | _, _ => chain1 ++ chain2
    end.

(** ** Lists of integers *)

(** The list 3, 1, 2, 1, and the two lists the demonstration merges. *)
Definition numbers : LinkedList.LinkedList Z :=
  {| LinkedList.head := [3; 1; 2; 1]; LinkedList.size := 4 |}.
Definition odds : LinkedList.LinkedList Z :=
  {| LinkedList.head := [1; 3; 5]; LinkedList.size := 3 |}.
Definition evens : LinkedList.LinkedList Z :=
  {| LinkedList.head := [2; 4; 6]; LinkedList.size := 3 |}.

(** * Properties *)

(** ** Comparison, minimum and commutativity on floats *)

Lemma SFcompare_antisym (x y : float) :
  SFcompare y x = option_map CompOpp (SFcompare x y).
Proof.
  destruct x as [sx|sx| |sx mx ex], y as [sy|sy| |sy my ey]; simpl;
    try destruct sx; try destruct sy; simpl; try reflexivity.
  - rewrite (Z.compare_antisym ex ey).
    pose proof (Pos.compare_cont_antisym mx my Eq) as H. simpl in H.
    destruct (ex ?= ey); simpl; try reflexivity.
    now rewrite H.
  - rewrite (Z.compare_antisym ex ey).
    pose proof (Pos.compare_cont_antisym mx my Eq) as H. simpl in H.
    destruct (ex ?= ey); simpl; try reflexivity.
    now rewrite H.
Qed.

(** [a <= b] excludes [b < a]. *)
Lemma leb_not_ltb (a b : float) : leb a b = true -> ltb b a = false.
Proof.
  unfold leb, ltb, SFleb, SFltb. rewrite (SFcompare_antisym a b).
  destruct (SFcompare a b) as [[ | | ]|]; simpl; congruence.
Qed.




(** ** Signs through rounding *)

Lemma nonneg_leb (x : float) : nonneg x <-> leb zero x = true.
Proof.
  destruct x as [s|s| |s m e]; simpl; try destruct s; simpl;
    split; intros H; try reflexivity; try exact I; try discriminate; try contradiction.
Qed.

Lemma shr_1_nonneg (mrs : shr_record) : 0 <= shr_m mrs -> 0 <= shr_m (shr_1 mrs).
Proof.
  destruct mrs as [m r s]. destruct m as [|p|p]; simpl; intros H;
    try destruct p; simpl; lia.
Qed.

Lemma iter_shr_1_nonneg (p : positive) :
  forall mrs, 0 <= shr_m mrs -> 0 <= shr_m (iter_pos shr_1 p mrs).
Proof.
  induction p as [p IH|p IH|]; simpl; intros mrs H.
  - apply IH, IH, shr_1_nonneg, H.
  - apply IH, IH, H.
  - apply shr_1_nonneg, H.
Qed.

Lemma shr_fexp_nonneg (m e : Z) (l : location) :
  0 <= m -> 0 <= shr_m (fst (shr_fexp prec emax m e l)).
Proof.
  intros H. unfold shr_fexp, shr.
  assert (H0 : 0 <= shr_m (shr_record_of_loc m l)) by (destruct l as [|[ | | ]]; exact H).
  destruct (fexp prec emax (Zdigits2 m + e) - e); simpl; try exact H0.
  apply iter_shr_1_nonneg, H0.
Qed.

Lemma round_nearest_even_nonneg (m : Z) (l : location) :
  0 <= m -> 0 <= round_nearest_even m l.
Proof.
  intros H. destruct l as [|[ | | ]]; simpl; try lia. destruct (Z.even m); lia.
Qed.

(** Rounding a non-negative mantissa gives a number of the requested sign,
    never a NaN. *)
Lemma binary_round_aux_sign (s : bool) (m e : Z) (l : location) :
  0 <= m ->
  match binary_round_aux prec emax s m e l with
  | S754_zero s' | S754_infinity s' | S754_finite s' _ _ => s' = s
  | S754_nan => False
  end.
Proof.
  intros H. unfold binary_round_aux.
  pose proof (shr_fexp_nonneg m e l H) as H1.
  destruct (shr_fexp prec emax m e l) as [mrs1 e1]. simpl in H1.
  pose proof (shr_fexp_nonneg _ e1 loc_Exact
                (round_nearest_even_nonneg _ (loc_of_shr_record mrs1) H1)) as H2.
  destruct (shr_fexp prec emax _ e1 loc_Exact) as [mrs2 e2]. simpl in H2.
  destruct (shr_m mrs2) as [|p|p]; try reflexivity; [| lia].
  destruct (e2 <=? emax - prec); reflexivity.
Qed.

Lemma binary_round_sign (s : bool) (m : positive) (e : Z) :
  match binary_round prec emax s m e with
  | S754_zero s' | S754_infinity s' | S754_finite s' _ _ => s' = s
  | S754_nan => False
  end.
Proof.
  unfold binary_round.
  destruct (shl_align m e _) as [mz ez]. now apply binary_round_aux_sign.
Qed.

Lemma of_Z_nonneg (n : Z) : 0 <= n -> nonneg (of_Z n).
Proof.
  intros H. unfold of_Z, binary_normalize. destruct n as [|p|p]; [exact I | | lia].
  pose proof (binary_round_sign false p 0) as Hs.
  destruct (binary_round prec emax false p 0); simpl; auto.
Qed.

(** A product of two non-negative floats is non-negative unless it is the
    NaN of [0 * inf]. *)
Lemma mul_nonneg (x y : float) :
  nonneg x -> nonneg y -> mul x y <> S754_nan -> nonneg (mul x y).
Proof.
  unfold mul, SFmul.
  destruct x as [sx|sx| |sx mx ex], y as [sy|sy| |sy my ey]; simpl;
    intros Hx Hy Hn; subst; try exact I; try reflexivity; try contradiction;
    try congruence.
  assert (Hs := binary_round_aux_sign false (Zpos (mx * my)) (ex + ey) loc_Exact
                  (Pos2Z.is_nonneg _)).
  destruct (binary_round_aux _ _ _ _ _ _); simpl; auto.
Qed.

Lemma to_int_floor (x : float) (n : Z) :
  nonneg x -> to_int x = Ok n -> floor x = Some n.
Proof.
  destruct x as [s|s| |s m e]; simpl; intros Hx Hn; try discriminate.
  - congruence.
  - subst s. simpl in *. congruence.
Qed.

(** ** Digits *)

Lemma digits2_pos_bounds (p : positive) :
  2 ^ (Zpos (digits2_pos p) - 1) <= Zpos p < 2 ^ Zpos (digits2_pos p).
Proof.
  induction p as [p IH|p IH|]; simpl digits2_pos.
  - rewrite Pos2Z.inj_succ, (Pos2Z.inj_xI p).
    replace (Z.succ (Zpos (digits2_pos p)) - 1) with (Z.succ (Zpos (digits2_pos p) - 1)) by lia.
    rewrite !Z.pow_succ_r by lia.
    set (a := 2 ^ (Zpos (digits2_pos p) - 1)) in *.
    set (b := 2 ^ Zpos (digits2_pos p)) in *. clearbody a b. destruct IH; split; lia.
  - rewrite Pos2Z.inj_succ, (Pos2Z.inj_xO p).
    replace (Z.succ (Zpos (digits2_pos p)) - 1) with (Z.succ (Zpos (digits2_pos p) - 1)) by lia.
    rewrite !Z.pow_succ_r by lia.
    set (a := 2 ^ (Zpos (digits2_pos p) - 1)) in *.
    set (b := 2 ^ Zpos (digits2_pos p)) in *. clearbody a b. destruct IH; split; lia.
  - simpl. lia.
Qed.

(** A positive number below [2 ^ d] has at most [d] digits. *)
Lemma digits2_pos_le (p : positive) (d : Z) :
  Zpos p < 2 ^ d -> Zpos (digits2_pos p) <= d.
Proof.
  intros H. destruct (digits2_pos_bounds p) as [Hl _].
  destruct (Z_lt_le_dec d 0) as [Hd|Hd].
  - rewrite Z.pow_neg_r in H by lia. lia.
  - apply Z.lt_succ_r. apply (Z.pow_lt_mono_r_iff 2); try lia.
    replace (Z.succ d) with (d + 1) by lia.
    assert (2 ^ (Zpos (digits2_pos p) - 1) < 2 ^ d) by lia.
    apply (Z.pow_lt_mono_r_iff 2) in H0; try lia.
    apply Z.pow_lt_mono_r; lia.
Qed.

Lemma Zdigits2_nonneg (m : Z) : 0 <= Zdigits2 m.
Proof. destruct m; simpl; lia. Qed.

Lemma Zdigits2_upper (m : Z) : 0 <= m -> m < 2 ^ Zdigits2 m.
Proof.
  destruct m as [|p|p]; simpl; intros H; try lia.
  apply digits2_pos_bounds.
Qed.

Lemma Zdigits2_lower (m : Z) : 0 < m -> 2 ^ (Zdigits2 m - 1) <= m.
Proof.
  destruct m as [|p|p]; simpl; intros H; try lia.
  apply digits2_pos_bounds.
Qed.

Lemma Zdigits2_le (m d : Z) : 0 <= m -> 0 <= d -> m < 2 ^ d -> Zdigits2 m <= d.
Proof.
  destruct m as [|p|p]; simpl; intros H Hd Hm; try lia.
  now apply digits2_pos_le.
Qed.

(** ** Right shifts with round and sticky bits *)

Lemma mod_pow2_add (m j k : Z) :
  0 <= j -> 0 <= k ->
  (m mod 2 ^ (j + k) = 0 <-> m mod 2 ^ j = 0 /\ (m / 2 ^ j) mod 2 ^ k = 0).
Proof.
  intros Hj Hk.
  assert (Hpj : 0 < 2 ^ j) by (apply Z.pow_pos_nonneg; lia).
  assert (Hpk : 0 < 2 ^ k) by (apply Z.pow_pos_nonneg; lia).
  rewrite Z.pow_add_r, Z.rem_mul_r by lia.
  pose proof (Z.mod_pos_bound m (2 ^ j) Hpj) as B1.
  pose proof (Z.mod_pos_bound (m / 2 ^ j) (2 ^ k) Hpk) as B2.
  split; [intros H | intros [H1 H2]; rewrite H1, H2; lia].
  split; nia.
Qed.

Lemma shr_1_shifted (a : shr_record) : 0 <= shr_m a -> shifted 1 a (shr_1 a).
Proof.
  destruct a as [m r s]. intros Hm. unfold shifted, inexact.
  change (2 ^ 1) with 2. cbn [shr_m shr_r shr_s] in *.
  rewrite Zmod_odd, <- Z.div2_div.
  destruct m as [|[p|p|]|p]; [| | | | lia]; cbn; repeat split;
    try lia; try (destruct r, s; cbn; intuition congruence).
Qed.

Lemma shifted_trans (j k : Z) (a b c : shr_record) :
  0 <= j -> 0 <= k -> shifted j a b -> shifted k b c -> shifted (j + k) a c.
Proof.
  intros Hj Hk (Hb & Hab & Iab) (Hc & Hbc & Ibc). unfold shifted.
  split; [exact Hc |]. split.
  - rewrite Hbc, Hab, Z.pow_add_r, Z.div_div by
      (try apply Z.pow_pos_nonneg; try apply Z.pow_nonneg; lia). reflexivity.
  - rewrite Ibc, Iab, Hab, (mod_pow2_add (shr_m a) j k Hj Hk). tauto.
Qed.

Lemma iter_shr_1_shifted (p : positive) :
  forall a, 0 <= shr_m a -> shifted (Zpos p) a (iter_pos shr_1 p a).
Proof.
  induction p as [p IH|p IH|]; intros a Ha; simpl iter_pos.
  - pose proof (shr_1_shifted a Ha) as H1.
    pose proof (IH _ (proj1 H1)) as H2.
    pose proof (IH _ (proj1 H2)) as H3.
    replace (Zpos p~1) with (1 + (Zpos p + Zpos p)) by (rewrite (Pos2Z.inj_xI p); lia).
    apply (shifted_trans 1 (Zpos p + Zpos p) a (shr_1 a)); [lia | lia | exact H1 |].
    apply (shifted_trans (Zpos p) (Zpos p) _ _ _ ltac:(lia) ltac:(lia) H2 H3).
  - pose proof (IH _ Ha) as H2.
    pose proof (IH _ (proj1 H2)) as H3.
    replace (Zpos p~0) with (Zpos p + Zpos p) by (rewrite (Pos2Z.inj_xO p); lia).
    apply (shifted_trans (Zpos p) (Zpos p) _ _ _ ltac:(lia) ltac:(lia) H2 H3).
  - now apply shr_1_shifted.
Qed.

(** [shr_fexp]: the mantissa is shifted right until its exponent is the one
    of the format, [fexp (digits + e)], or not at all when it is there. *)
Lemma shr_fexp_shifted (m e : Z) (l : location) :
  0 <= m ->
  let k := Z.max 0 (fexp prec emax (Zdigits2 m + e) - e) in
  shifted k (shr_record_of_loc m l) (fst (shr_fexp prec emax m e l))
  /\ snd (shr_fexp prec emax m e l) = e + k.
Proof.
  intros Hm k. unfold shr_fexp, shr. subst k.
  assert (H0 : shr_m (shr_record_of_loc m l) = m) by (destruct l as [|[ | | ]]; reflexivity).
  destruct (fexp prec emax (Zdigits2 m + e) - e) as [|p|p] eqn:E; simpl fst; simpl snd.
  - split; [| simpl; lia]. unfold shifted. simpl Z.max. rewrite H0, Z.pow_0_r, Z.div_1_r, Z.mod_1_r.
    intuition lia.
  - rewrite Z.max_r by lia. split; [| reflexivity].
    apply iter_shr_1_shifted. lia.
  - split; [| simpl; lia]. unfold shifted. simpl Z.max. rewrite H0, Z.pow_0_r, Z.div_1_r, Z.mod_1_r.
    intuition lia.
Qed.

Lemma round_nearest_even_bounds (m : Z) (l : location) :
  m <= round_nearest_even m l <= m + 1
  /\ (l = loc_Exact -> round_nearest_even m l = m).
Proof.
  destruct l as [|[ | | ]]; simpl; try destruct (Z.even m); split; try lia; try reflexivity;
    intros; discriminate.
Qed.

Lemma loc_of_exact (mrs : shr_record) :
  inexact mrs = false -> loc_of_shr_record mrs = loc_Exact.
Proof. destruct mrs as [m [|] [|]]; unfold inexact; simpl; congruence. Qed.

(** ** What rounding returns

    [binary_round_aux] on a non-negative mantissa [m] at exponent [e]: with
    [k] the number of bits the format drops, the result stands for
    [m2 * 2 ^ (e + k)], where [m2] is [m / 2 ^ k] or its successor, and is
    [m / 2 ^ k] when no bit was lost. *)
Lemma binary_round_aux_spec (s : bool) (m e : Z) (l : location) :
  0 <= m ->
  let k := Z.max 0 (fexp prec emax (Zdigits2 m + e) - e) in
  let r := binary_round_aux prec emax s m e l in
  exists m2,
    m / 2 ^ k <= m2 <= m / 2 ^ k + 1
    /\ (l = loc_Exact -> m mod 2 ^ k = 0 -> m2 = m / 2 ^ k)
    /\ ((m2 = 0 /\ r = S754_zero s)
        \/ (emax - prec <= e + k /\ r = S754_infinity s)
        \/ (exists m3 e3,
              r = S754_finite s m3 e3 /\ e3 <= emax - prec
              /\ ((Zpos m3 = m2 /\ e3 = e + k)
                  \/ (m2 = 2 ^ 53 /\ Zpos m3 = 2 ^ 52 /\ e3 = e + k + 1)))).
Proof.
  intros Hm k r. subst r. unfold binary_round_aux.
  destruct (shr_fexp_shifted m e l Hm) as [(H1m & H1d & H1i) H1e]. fold k in H1d, H1i, H1e.
  destruct (shr_fexp prec emax m e l) as [mrs1 e1]. simpl fst in *. simpl snd in *.
  assert (Hrec : shr_m (shr_record_of_loc m l) = m) by (destruct l as [|[ | | ]]; reflexivity).
  rewrite Hrec in H1d, H1i.
  set (m2 := round_nearest_even (shr_m mrs1) (loc_of_shr_record mrs1)).
  destruct (round_nearest_even_bounds (shr_m mrs1) (loc_of_shr_record mrs1)) as [Hb Hx].
  fold m2 in Hb, Hx.
  assert (Hk : 0 <= k) by (unfold k; lia).
  assert (Hp : 0 < 2 ^ k) by (apply Z.pow_pos_nonneg; lia).
  assert (Hm1 : shr_m mrs1 < 2 ^ 53).
  { rewrite H1d. apply Z.div_lt_upper_bound; [exact Hp |].
    rewrite <- Z.pow_add_r by lia.
    apply Z.lt_le_trans with (2 ^ Zdigits2 m); [now apply Zdigits2_upper |].
    apply Z.pow_le_mono_r; [lia |]. unfold k, fexp, prec, emax, emin. lia. }
  assert (He1 : -1074 <= e1).
  { rewrite H1e. unfold k, fexp, prec, emax, emin. lia. }
  assert (Hm2 : 0 <= m2) by lia.
  destruct (shr_fexp_shifted m2 e1 loc_Exact Hm2) as [(H2m & H2d & _) H2e].
  simpl shr_record_of_loc in H2d. simpl shr_m in H2d.
  exists m2. split; [rewrite <- H1d; exact Hb |]. split.
  { intros Hl Hmod. rewrite <- H1d. apply Hx, loc_of_exact, H1i.
    split; [subst l; reflexivity | exact Hmod]. }
  destruct (shr_fexp prec emax m2 e1 loc_Exact) as [mrs2 e2]. simpl fst in *. simpl snd in *.
  assert (Hcase : (shr_m mrs2 = m2 /\ e2 = e1)
                  \/ (m2 = 2 ^ 53 /\ shr_m mrs2 = 2 ^ 52 /\ e2 = e1 + 1)).
  { destruct (Z_lt_le_dec m2 (2 ^ 53)) as [Hlt|Hge].
    - left. assert (Hd : Zdigits2 m2 <= 53) by (apply Zdigits2_le; lia).
      assert (Hk2 : Z.max 0 (fexp prec emax (Zdigits2 m2 + e1) - e1) = 0)
        by (unfold fexp, prec, emax, emin; lia).
      rewrite Hk2 in H2d, H2e. rewrite Z.pow_0_r, Z.div_1_r in H2d. lia.
    - right. assert (Heq : m2 = 2 ^ 53) by lia.
      assert (Hk2 : Z.max 0 (fexp prec emax (Zdigits2 m2 + e1) - e1) = 1).
      { rewrite Heq. change (Zdigits2 (2 ^ 53)) with 54.
        unfold fexp, prec, emax, emin. lia. }
      rewrite Hk2 in H2d, H2e. rewrite H2d, Heq. repeat split; try reflexivity; lia. }
  destruct (shr_m mrs2) as [|p|p] eqn:E3; [| | lia].
  - left. split; [lia | reflexivity].
  - right. destruct (Z.leb_spec e2 (Float.emax - Float.prec)) as [Hle|Hgt].
    + right. exists p, e2. split; [reflexivity |]. split; [exact Hle |].
      destruct Hcase as [[Ha Hb']|(Ha & Hb' & Hc)]; [left | right]; repeat split; lia.
    + left. split; [lia | reflexivity].
Qed.

(** ** Shifts as floors *)

Lemma shiftl_mono (a b e : Z) : a <= b -> Z.shiftl a e <= Z.shiftl b e.
Proof.
  intros H. destruct (Z_le_gt_dec 0 e) as [He|He].
  - rewrite !Z.shiftl_mul_pow2 by lia.
    apply Z.mul_le_mono_nonneg_r; [apply Z.pow_nonneg; lia | exact H].
  - rewrite !Z.shiftl_div_pow2 by lia.
    apply Z.div_le_mono; [apply Z.pow_pos_nonneg; lia | exact H].
Qed.

(** The integer part of what [binary_round_aux] returns. *)
Lemma to_int_round (s : bool) (m e : Z) (l : location) :
  0 <= m ->
  let k := Z.max 0 (fexp prec emax (Zdigits2 m + e) - e) in
  exists m2,
    m / 2 ^ k <= m2 <= m / 2 ^ k + 1
    /\ (l = loc_Exact -> m mod 2 ^ k = 0 -> m2 = m / 2 ^ k)
    /\ forall v, to_int (binary_round_aux prec emax s m e l) = Ok v ->
                 v = cond_Zopp s (Z.shiftl m2 (e + k)).
Proof.
  intros Hm k. destruct (binary_round_aux_spec s m e l Hm) as (m2 & Hb & Hx & Hr).
  fold k in Hb, Hx, Hr. exists m2. split; [exact Hb |]. split; [exact Hx |].
  intros v Hv.
  destruct Hr as [[H0 Hr]|[[_ Hr]|(m3 & e3 & Hr & _ & Hc)]]; rewrite Hr in Hv; simpl in Hv.
  - inversion Hv. subst m2. rewrite Z.shiftl_0_l. now destruct s.
  - discriminate.
  - inversion Hv. f_equal.
    destruct Hc as [[Ha Hb']|(Ha & Hb' & Hc)].
    + now rewrite Ha, Hb'.
    + rewrite Ha, Hb', Hc. replace (e + k + 1) with (1 + (e + k)) by lia.
      rewrite <- Z.shiftl_shiftl by lia. reflexivity.
Qed.

(** ** Integers as floats *)

Lemma iter_xO_value (p d : positive) :
  Zpos (Pos.iter xO p d) = Zpos p * 2 ^ Zpos d.
Proof.
  change (Pos.iter xO p d) with (shift_pos d p).
  rewrite shift_pos_correct. change (Zpower_pos 2 d) with (2 ^ Zpos d). lia.
Qed.

(** An integer below [2 ^ 53] is a float, exactly. *)
Lemma of_Z_exact (n : Z) :
  0 < n < 2 ^ 53 ->
  exists m e, of_Z n = S754_finite false m e /\ e <= 0 /\ Zpos m = n * 2 ^ (- e).
Proof.
  intros [Hn Hlt]. destruct n as [|p|p]; try lia.
  unfold of_Z, binary_normalize, binary_round.
  assert (Hd : Zpos (digits2_pos p) <= 53) by (now apply digits2_pos_le).
  assert (Hd1 : 0 < Zpos (digits2_pos p)) by lia.
  destruct (digits2_pos_bounds p) as [_ Hup].
  assert (Hal : exists mz ez,
             shl_align p 0 (fexp prec emax (Zpos (digits2_pos p) + 0)) = (mz, ez)
             /\ ez = Zpos (digits2_pos p) - 53 /\ Zpos mz = Zpos p * 2 ^ (- ez)).
  { unfold shl_align, fexp, prec, emax, emin.
    replace (Z.max (Zpos (digits2_pos p) + 0 - 53) (3 - 1024 - 53) - 0)
      with (Zpos (digits2_pos p) - 53) by lia.
    destruct (Zpos (digits2_pos p) - 53) as [|d|d] eqn:E; try lia.
    - exists p, 0. repeat split; simpl; lia.
    - exists (Pos.iter xO p d), (Z.max (Zpos (digits2_pos p) + 0 - 53) (3 - 1024 - 53)).
      split; [reflexivity |]. split; [lia |].
      rewrite iter_xO_value. f_equal. f_equal. lia. }
  destruct Hal as (mz & ez & Hal & Hez & Hmz). rewrite Hal.
  assert (Hmzlt : Zpos mz < 2 ^ 53).
  { rewrite Hmz. replace 53 with (Zpos (digits2_pos p) + (- ez)) by lia.
    rewrite Z.pow_add_r by lia.
    apply Z.mul_lt_mono_pos_r; [apply Z.pow_pos_nonneg; lia | exact Hup]. }
  assert (Hk : Z.max 0 (fexp prec emax (Zdigits2 (Zpos mz) + ez) - ez) = 0).
  { pose proof (digits2_pos_le mz 53 Hmzlt). simpl Zdigits2.
    unfold fexp, prec, emax, emin. lia. }
  destruct (binary_round_aux_spec false (Zpos mz) ez loc_Exact ltac:(lia))
    as (m2 & Hb & Hx & Hr).
  rewrite Hk in Hb, Hx, Hr. rewrite Z.pow_0_r, Z.div_1_r in Hb, Hx.
  specialize (Hx eq_refl (Z.mod_1_r _)).
  destruct Hr as [[H0 _]|[[Ho _]|(m3 & e3 & Hr & _ & Hc)]].
  - lia.
  - unfold prec, emax in Ho. lia.
  - rewrite Hr. exists m3, e3. split; [reflexivity |].
    destruct Hc as [[Ha Hb']|(Ha & _)]; [| lia].
    split; [lia |]. rewrite Ha, Hx, Hb', Z.add_0_r. exact Hmz.
Qed.

(** ** Binary64 values and their order *)

Lemma valid_finite (s : bool) (m : positive) (e : Z) :
  valid (S754_finite s m e) ->
  -1074 <= e <= 971
  /\ Zpos m < 2 ^ 53
  /\ (-1074 < e -> 2 ^ 52 <= Zpos m).
Proof.
  unfold valid, valid_binary, bounded, canonical_mantissa, fexp, prec, emax, emin.
  rewrite andb_true_iff, Z.eqb_eq, Z.leb_le. intros [Hc He].
  destruct (digits2_pos_bounds m) as [Hlo Hup].
  assert (Hd : Zpos (digits2_pos m) <= 53) by lia.
  split; [lia |]. split.
  - apply Z.lt_le_trans with (1 := Hup). apply Z.pow_le_mono_r; lia.
  - intros Hgt. replace (Zpos (digits2_pos m)) with 53 in Hlo by lia. exact Hlo.
Qed.

Lemma compare_cont_Eq (p q : positive) : Pos.compare_cont Eq p q = (Zpos p ?= Zpos q).
Proof. reflexivity. Qed.

(** A float that is at least 1.0. *)
Lemma valid_ge_one (f : float) :
  valid f -> leb one f = true ->
  f = S754_infinity false
  \/ exists m e, f = S754_finite false m e /\ (0 <= e \/ 2 ^ (- e) <= Zpos m).
Proof.
  intros Hv Hle. destruct f as [s|s| |s m e]; try discriminate;
    try (destruct s; discriminate).
  - destruct s; [discriminate | now left].
  - right. destruct s; [discriminate |]. exists m, e. split; [reflexivity |].
    destruct (valid_finite _ _ _ Hv) as (He & Hm & Hn).
    unfold leb, SFleb, SFcompare, one in Hle.
    destruct (Z.compare_spec (-52) e) as [Heq|Hlt|Hgt].
    + subst e. right. rewrite compare_cont_Eq in Hle.
      destruct (Z.compare_spec (Zpos 4503599627370496) (Zpos m)); try discriminate;
        change (2 ^ (- -52)) with (Zpos 4503599627370496); lia.
    + destruct (Z_le_gt_dec 0 e); [now left | right].
      apply Z.le_trans with (2 ^ 52); [apply Z.pow_le_mono_r; lia | apply Hn; lia].
    + discriminate.
Qed.

(** A non-negative float that is at most 1.0. *)
Lemma valid_le_one (f : float) :
  valid f -> nonneg f -> leb f one = true ->
  (exists s, f = S754_zero s)
  \/ exists m e, f = S754_finite false m e /\ e < 0 /\ Zpos m <= 2 ^ (- e).
Proof.
  intros Hv Hn Hle. destruct f as [s|s| |s m e]; simpl in Hn; try contradiction.
  - left. now exists s.
  - subst s. discriminate.
  - right. subst s. exists m, e. split; [reflexivity |].
    destruct (valid_finite _ _ _ Hv) as (He & Hm & _).
    unfold leb, SFleb, SFcompare, one in Hle.
    destruct (Z.compare_spec e (-52)) as [Heq|Hlt|Hgt].
    + subst e. split; [lia |]. rewrite compare_cont_Eq in Hle.
      destruct (Z.compare_spec (Zpos m) (Zpos 4503599627370496)); try discriminate;
        change (2 ^ (- -52)) with (Zpos 4503599627370496); lia.
    + split; [lia |]. apply Z.le_trans with (2 ^ 53); [lia |].
      apply Z.pow_le_mono_r; lia.
    + discriminate.
Qed.

(** ** Scaling an instance count *)

Lemma of_Z_0 : of_Z 0 = S754_zero false.
Proof. reflexivity. Qed.

(** With a factor of at least 1.0 the scaled count is not below the count. *)
Lemma scaled_instances_ge (n : Z) (f : float) (v : Z) :
  0 <= n < 2 ^ 53 -> valid f -> leb one f = true ->
  scaled_instances n f = Ok v -> n <= v.
Proof.
  intros [Hn0 Hn] Hv Hf. unfold scaled_instances, of_int.
  destruct (valid_ge_one f Hv Hf) as [Hinf|(mf & ef & Hfin & Hge)]; subst f.
  { destruct (of_Z n) as [s|s| |s m e]; try discriminate;
      unfold mul, SFmul; simpl; discriminate. }
  destruct (Z.eq_dec n 0) as [Hz|Hnz].
  { subst n. rewrite of_Z_0. unfold mul. simpl. intros H. inversion H. lia. }
  destruct (of_Z_exact n ltac:(lia)) as (mn & en & Hof & Hen & Hmn). rewrite Hof.
  unfold mul, SFmul. cbn [xorb].
  destruct (to_int_round false (Zpos (mn * mf)) (en + ef) loc_Exact ltac:(lia))
    as (m2 & Hb & _ & Hto).
  intros Hres. rewrite (Hto v Hres). cbn [cond_Zopp].
  set (m := Zpos (mn * mf)) in *. set (e := en + ef) in *.
  set (k := Z.max 0 (fexp prec emax (Zdigits2 m + e) - e)) in *.
  apply Z.le_trans with (Z.shiftl (m / 2 ^ k) (e + k)); [| apply shiftl_mono; lia].
  assert (Hm : m = n * 2 ^ (- en) * Zpos mf) by (unfold m; rewrite Pos2Z.inj_mul, Hmn; ring).
  assert (Hk : 0 <= k) by (unfold k; lia).
  assert (HP : 0 < 2 ^ (- en)) by (apply Z.pow_pos_nonneg; lia).
  assert (Hpk : 0 < 2 ^ k) by (apply Z.pow_pos_nonneg; lia).
  assert (Hmf : 1 <= Zpos mf) by lia.
  assert (Hmn' : n <= n * 2 ^ (- en)) by nia.
  assert (Hmge : n <= m) by nia.
  destruct (Z_le_gt_dec (e + k) 0) as [Hle|Hgt].
  - rewrite Z.shiftl_div_pow2 by lia.
    rewrite Z.div_div by (try apply Z.pow_pos_nonneg; lia).
    rewrite <- Z.pow_add_r by lia. replace (k + - (e + k)) with (- e) by lia.
    apply Z.div_le_lower_bound; [apply Z.pow_pos_nonneg; lia |].
    rewrite Hm. destruct (Z_le_gt_dec 0 ef) as [Hef|Hef].
    + assert (2 ^ (- e) <= 2 ^ (- en)) by (apply Z.pow_le_mono_r; unfold e; lia).
      nia.
    + assert (Hmf2 : 2 ^ (- ef) <= Zpos mf) by (destruct Hge; [lia | assumption]).
      assert (Hsplit : 2 ^ (- e) = 2 ^ (- en) * 2 ^ (- ef))
        by (unfold e; rewrite <- Z.pow_add_r by lia; f_equal; lia).
      rewrite Hsplit. nia.
  - rewrite Z.shiftl_mul_pow2 by lia.
    destruct (Z.eq_dec k 0) as [Hk0|Hk0].
    + rewrite Hk0, Z.pow_0_r, Z.div_1_r, Z.add_0_r.
      assert (0 < 2 ^ e) by (apply Z.pow_pos_nonneg; lia).
      nia.
    + assert (Hkd : k = Zdigits2 m - 53) by (unfold k, fexp, prec, emax, emin in *; lia).
      assert (Hmpos : 0 < m) by (unfold m; lia).
      pose proof (Zdigits2_lower m Hmpos) as Hlow.
      replace (Zdigits2 m - 1) with (k + 52) in Hlow by lia.
      rewrite Z.pow_add_r in Hlow by lia.
      assert (H52 : 2 ^ 52 <= m / 2 ^ k) by (apply Z.div_le_lower_bound; lia).
      assert (H2 : 2 ^ 1 <= 2 ^ (e + k)) by (apply Z.pow_le_mono_r; lia).
      change (2 ^ 1) with 2 in H2. change (2 ^ 53) with (2 ^ 52 * 2) in Hn. nia.
Qed.

(** With a factor between 0.0 and 1.0 the scaled count lies between 0 and
    the count. *)
Lemma scaled_instances_le (n : Z) (f : float) (v : Z) :
  0 <= n < 2 ^ 53 -> valid f -> leb zero f = true -> leb f one = true ->
  scaled_instances n f = Ok v -> 0 <= v <= n.
Proof.
  intros [Hn0 Hn] Hv Hf0 Hf1. apply nonneg_leb in Hf0.
  unfold scaled_instances, of_int.
  destruct (Z.eq_dec n 0) as [Hz|Hnz].
  { subst n. rewrite of_Z_0. unfold mul.
    destruct f as [s|s| |s m e]; simpl; intros H; inversion H; lia. }
  destruct (of_Z_exact n ltac:(lia)) as (mn & en & Hof & Hen & Hmn). rewrite Hof.
  destruct (valid_le_one f Hv Hf0 Hf1) as [[s Hz]|(mf & ef & Hfin & Hef & Hle)]; subst f.
  { unfold mul. simpl. intros H. inversion H. lia. }
  unfold mul, SFmul. cbn [xorb].
  destruct (to_int_round false (Zpos (mn * mf)) (en + ef) loc_Exact ltac:(lia))
    as (m2 & Hb & Hx & Hto).
  intros Hres. rewrite (Hto v Hres). cbn [cond_Zopp]. clear Hto Hres.
  specialize (Hx eq_refl).
  set (m := Zpos (mn * mf)) in *. set (e := en + ef) in *.
  set (k := Z.max 0 (fexp prec emax (Zdigits2 m + e) - e)) in *.
  assert (Hm : m = n * 2 ^ (- en) * Zpos mf) by (unfold m; rewrite Pos2Z.inj_mul, Hmn; ring).
  assert (Hk : 0 <= k) by (unfold k; lia).
  assert (HP : 0 < 2 ^ (- en)) by (apply Z.pow_pos_nonneg; lia).
  assert (Hpk : 0 < 2 ^ k) by (apply Z.pow_pos_nonneg; lia).
  assert (Hsplit : 2 ^ (- e) = 2 ^ (- en) * 2 ^ (- ef))
    by (unfold e; rewrite <- Z.pow_add_r by lia; f_equal; lia).
  assert (Hmle : m <= n * 2 ^ (- e)) by (rewrite Hm, Hsplit; nia).
  assert (Hpe : 0 < 2 ^ (- e)) by (apply Z.pow_pos_nonneg; unfold e; lia).
  assert (Hdig : Zdigits2 m <= 53 - e).
  { apply Zdigits2_le; [unfold m; lia | unfold e; lia |].
    replace (53 - e) with (53 + - e) by lia.
    rewrite Z.pow_add_r by (unfold e; lia). nia. }
  assert (Hek : e + k <= 0) by (unfold k, fexp, prec, emax, emin, e in *; lia).
  assert (Hm1 : 0 <= m / 2 ^ k) by (apply Z.div_pos; [unfold m |]; lia).
  split.
  { apply Z.shiftl_nonneg. lia. }
  rewrite Z.shiftl_div_pow2 by lia.
  assert (HQ : 0 < 2 ^ (- (e + k))) by (apply Z.pow_pos_nonneg; lia).
  assert (Hsplit2 : 2 ^ (- e) = 2 ^ k * 2 ^ (- (e + k)))
    by (rewrite <- Z.pow_add_r by lia; f_equal; lia).
  apply Z.div_le_upper_bound; [exact HQ |].
  pose proof (Z.div_mod m (2 ^ k) ltac:(lia)) as Hdm.
  pose proof (Z.mod_pos_bound m (2 ^ k) Hpk) as Hmod.
  destruct (Z.eq_dec (m mod 2 ^ k) 0) as [Hex|Hnex].
  - rewrite (Hx Hex). nia.
  - assert (m / 2 ^ k < n * 2 ^ (- (e + k))) by nia. nia.
Qed.

(** ** Quotients that do not exceed one *)



(** ** Sums and differences that are not negative *)





(** ** From the order on floats to the order on what they stand for *)



(** ** [should_scale] *)

Section ShouldScale.

Variable mean : list float -> float.
Variable mean_number : list number -> number.

(** With at least one sample the averaged record holds the three means. *)
Lemma average_fields (self : AutoScaler) (now : float) :
  metrics_history self <> [] ->
  let avg := _calculate_average_metrics mean mean_number self now in
  cpu_usage avg = mean_cpu mean self
  /\ memory_usage avg = mean_memory mean self
  /\ response_time avg = mean_response_time mean self.
Proof.
  unfold _calculate_average_metrics, mean_cpu, mean_memory, mean_response_time.
  destruct (metrics_history self); [congruence | simpl; auto].
Qed.

Lemma five_samples_nonempty (self : AutoScaler) :
  5 <= Z.of_nat (length (metrics_history self)) -> metrics_history self <> [].
Proof. destruct (metrics_history self); simpl; [lia | congruence]. Qed.









End ShouldScale.

(** ** [execute_scaling] *)

(** [execute_scaling] in one equation: the confidence gate, then the formula,
    then the handler. *)
Lemma execute_scaling_eq (self : AutoScaler) (action : ScalingAction) (confidence now : float) :
  execute_scaling action confidence now self =
    if ltb confidence lit_0_7 then (Ok false, self)
    else
      match scaling_target self action with
      | Ok n => (Ok true, applied self n now)
      | Raise _ => (Ok false, self)
      end.
Proof.
  unfold execute_scaling, scaling_target.
  destruct (ltb confidence lit_0_7); [reflexivity |].
  destruct action; unfold try_except, bind, get, put, lift, ret, _scale_up, _scale_down;
    simpl; try reflexivity;
    match goal with
    | |- context [scaled_instances ?c ?f] => destruct (scaled_instances c f); reflexivity
    end.
Qed.



(** ** Bounds on the confidence *)









Section Confidence.

Variable mean : list float -> float.
Variable mean_number : list number -> number.



End Confidence.

(** ** The instance count stays within its bounds *)

Lemma execute_scaling_config (self : AutoScaler) action confidence now :
  config (snd (execute_scaling action confidence now self)) = config self.
Proof.
  rewrite execute_scaling_eq. destruct (ltb confidence lit_0_7); [reflexivity |].
  destruct (scaling_target self action); reflexivity.
Qed.

Lemma execute_scaling_within_bounds (self : AutoScaler) action confidence now :
  sound_config (config self) -> within_bounds self ->
  within_bounds (snd (execute_scaling action confidence now self)).
Proof.
  intros (Hmm & Hmax & Vu & Hu & Vd & Hd0 & Hd1) Hb. unfold within_bounds in *.
  rewrite execute_scaling_config, execute_scaling_eq.
  destruct (ltb confidence lit_0_7); [exact Hb |].
  unfold scaling_target. destruct action.
  - destruct (scaled_instances _ _) as [n|] eqn:E; [| exact Hb]. simpl.
    assert (Hr : 0 <= current_instances self < 2 ^ 53) by lia.
    pose proof (scaled_instances_ge _ _ _ Hr Vu Hu E). lia.
  - destruct (scaled_instances _ _) as [n|] eqn:E; [| exact Hb]. simpl.
    assert (Hr : 0 <= current_instances self < 2 ^ 53) by lia.
    pose proof (scaled_instances_le _ _ _ Hr Vd Hd0 Hd1 E). lia.
  - exact Hb.
Qed.

Lemma run_scaling_within_bounds calls :
  forall self, sound_config (config self) -> within_bounds self ->
               within_bounds (run_scaling calls self).
Proof.
  induction calls as [|[[action confidence] now] rest IH]; intros self Hc Hb; simpl.
  - exact Hb.
  - apply IH.
    + now rewrite execute_scaling_config.
    + now apply execute_scaling_within_bounds.
Qed.

(** C1, amended: for every configuration with
    [0 <= min_instances <= max_instances < 2 ^ 53], a scale-up factor of at
    least 1.0 and a scale-down factor within [0.0, 1.0], the instance count
    of a scaler initialized from it satisfies
    [min_instances <= current_instances <= max_instances] after every
    sequence of [execute_scaling] calls. *)
Theorem instances_within_bounds (cfg : ScalingConfig)
  (calls : list (ScalingAction * float * float)) :
  sound_config cfg -> within_bounds (run_scaling calls (init cfg)).
Proof.
  intros Hc. apply run_scaling_within_bounds; [exact Hc |].
  destruct Hc as (Hmm & _). unfold within_bounds, init. simpl. lia.
Qed.

(** C1 as stated fails: [min_instances <= max_instances] alone does not keep
    the count in range.  From the initial state of [shrinking_config], one
    [SCALE_UP] at confidence 0.9 sets the count to [min(int(2 * 0.1), 10)],
    which is 0 and below [min_instances = 2]. *)
Lemma instances_out_of_bounds :
  ~ (forall cfg calls,
       min_instances cfg <= max_instances cfg ->
       within_bounds (run_scaling calls (init cfg))).
Proof.
  intros H.
  specialize (H shrinking_config [(SCALE_UP, lit_0_9, of_Z 1000)] ltac:(simpl; lia)).
  unfold within_bounds in H. vm_compute in H. destruct H as [H _]. now apply H.
Qed.

(** The defaults of the source are such a configuration. *)
Lemma sound_default_config : sound_config default_config.
Proof. unfold sound_config. simpl. repeat split; try reflexivity; try lia; discriminate. Qed.

(** The theorem at the default configuration, on a scale-up followed by a
    scale-down. *)
Lemma instances_within_bounds_witness :
  sound_config default_config
  /\ within_bounds
       (run_scaling [(SCALE_UP, lit_0_9, of_Z 1000); (SCALE_DOWN, lit_0_9, of_Z 2000)]
          (init default_config)).
Proof.
  split; [exact sound_default_config |].
  apply (instances_within_bounds default_config), sound_default_config.
Defined.

(** ** The scaling formula *)

Lemma scaled_instances_floor (current : Z) (factor : float) (n : Z) :
  0 <= current -> leb zero factor = true ->
  scaled_instances current factor = Ok n -> floor_scaled current factor = Some n.
Proof.
  intros Hc Hf. unfold scaled_instances, floor_scaled, of_int.
  pose proof (of_Z_nonneg current Hc) as Hn. apply nonneg_leb in Hf.
  destruct (of_Z current) as [s|s| |s m e] eqn:E; try discriminate; intros H;
    (apply to_int_floor; [| exact H]);
    (apply mul_nonneg; [exact Hn | exact Hf |]);
    intros Hnan; rewrite Hnan in H; discriminate.
Qed.

(** C6, amended: with a confidence of at least 0.7, [SCALE_UP] sets
    [current_instances] to [min(int(current_instances * scale_up_factor),
    max_instances)] and [SCALE_DOWN] sets it to
    [max(int(current_instances * scale_down_factor), min_instances)], where
    [int] truncates toward zero; the truncation is the floor of the product
    whenever the count and the factor are not negative.  When the product
    cannot be converted to an integer, the count is unchanged.  In
    particular 4 instances, a factor of 1.5 and a maximum of 10 yield 6. *)
Theorem execute_scaling_formula (self : AutoScaler) (confidence now : float) :
  leb lit_0_7 confidence = true ->
  current_instances (snd (execute_scaling SCALE_UP confidence now self)) =
    match scaled_instances (current_instances self) (scale_up_factor (config self)) with
    | Ok n => Z.min n (max_instances (config self))
    | Raise _ => current_instances self
    end
  /\ current_instances (snd (execute_scaling SCALE_DOWN confidence now self)) =
       match scaled_instances (current_instances self) (scale_down_factor (config self)) with
       | Ok n => Z.max n (min_instances (config self))
       | Raise _ => current_instances self
       end
  /\ (0 <= current_instances self ->
      forall factor n, leb zero factor = true ->
        scaled_instances (current_instances self) factor = Ok n ->
        floor_scaled (current_instances self) factor = Some n)
  /\ current_instances (snd (execute_scaling SCALE_UP confidence now four_instances)) = 6.
Proof.
  intros H. rewrite !execute_scaling_eq, (leb_not_ltb _ _ H). unfold scaling_target.
  repeat split.
  - destruct (scaled_instances _ (scale_up_factor _)); reflexivity.
  - destruct (scaled_instances _ (scale_down_factor _)); reflexivity.
  - intros Hc factor n Hf Hn. now apply scaled_instances_floor.
Qed.

(** C6 as stated fails: the code truncates where the claim floors.  From
    the initial state of [negative_factor_config] the product 3 * -0.5 is
    -1.5, [int] makes it -1, and its floor is -2. *)
Lemma execute_scaling_truncates :
  ~ (forall self confidence now,
       leb lit_0_7 confidence = true ->
       option_map (fun n => Z.min n (max_instances (config self)))
         (floor_scaled (current_instances self) (scale_up_factor (config self)))
       = Some (current_instances (snd (execute_scaling SCALE_UP confidence now self)))).
Proof.
  intros H.
  specialize (H (init negative_factor_config) lit_0_9 (of_Z 1000) eq_refl).
  vm_compute in H. discriminate.
Qed.

(** The theorem at confidence 0.9: 4 instances become 6. *)
Lemma execute_scaling_formula_witness :
  leb lit_0_7 lit_0_9 = true
  /\ current_instances
       (snd (execute_scaling SCALE_UP lit_0_9 (of_Z 1000) four_instances)) = 6.
Proof.
  split; [reflexivity |].
  exact (proj2 (proj2 (proj2
    (execute_scaling_formula (init default_config) lit_0_9 (of_Z 1000) eq_refl)))).
Defined.

(** ** [add_metrics] *)

Lemma add_metrics_eq (self : AutoScaler) (metrics : SystemMetrics) (now : float) :
  add_metrics metrics now self =
    match of_int (metrics_window (config self)) with
    | Ok window =>
        (Ok tt,
         set_metrics_history self
           (filter (fun m => leb (sub now window) (timestamp m))
                   (metrics_history self ++ [metrics])))
    | Raise e => (Raise e, set_metrics_history self (metrics_history self ++ [metrics]))
    end.
Proof.
  unfold add_metrics, bind, get, put, lift. simpl.
  destruct (of_int (metrics_window (config self))); reflexivity.
Qed.

(** C7, amended: when [metrics_window] converts to a float [window],
    [add_metrics] at time [now] returns nothing, does not fail, and retains
    exactly the samples of the extended history whose timestamp is at least
    [now - window]: no retained sample is older than the window. *)
Theorem add_metrics_window
  (self : AutoScaler) (metrics : SystemMetrics) (now window : float) :
  of_int (metrics_window (config self)) = Ok window ->
  let r := add_metrics metrics now self in
  fst r = Ok tt
  /\ (forall m, In m (metrics_history (snd r)) ->
        leb (sub now window) (timestamp m) = true)
  /\ metrics_history (snd r) =
       filter (fun m => leb (sub now window) (timestamp m))
              (metrics_history self ++ [metrics])
  /\ config (snd r) = config self
  /\ current_instances (snd r) = current_instances self
  /\ last_scaling_time (snd r) = last_scaling_time self.
Proof.
  intros Hw. cbv zeta. rewrite add_metrics_eq, Hw. simpl.
  repeat split. intros m Hin. apply filter_In in Hin. apply Hin.
Qed.

(** A window of a few seconds, or of a few centuries, converts. *)
Lemma of_int_small (n : Z) : 0 <= n < 2 ^ 53 -> exists x, of_int n = Ok x.
Proof.
  intros [H0 H1]. unfold of_int. destruct (Z.eq_dec n 0) as [->|Hn].
  - now exists zero.
  - destruct (of_Z_exact n ltac:(lia)) as (m & e & Hof & _). rewrite Hof. eauto.
Qed.

(** C7 as stated fails: with [metrics_window = 2 ** 1024] the subtraction
    [time.time() - self.config.metrics_window] raises [OverflowError]. *)
Lemma add_metrics_fails :
  ~ (forall self metrics now, fst (add_metrics metrics now self) = Ok tt).
Proof.
  intros H.
  specialize (H (init huge_window_config) (sample 50 50 500 1000) (of_Z 1000)).
  vm_compute in H. discriminate.
Qed.

(** The theorem at the default window of 60 seconds: at time 1000 the
    sample stamped 900 is dropped and the one stamped 1000 is kept. *)
Lemma add_metrics_window_witness :
  of_int (metrics_window (config (init default_config))) = Ok (of_Z 60)
  /\ metrics_history
       (snd (add_metrics (sample 50 50 500 1000) (of_Z 1000)
               (set_metrics_history (init default_config) [sample 50 50 500 900])))
     = [sample 50 50 500 1000].
Proof.
  split; [reflexivity |].
  pose proof (add_metrics_window
                (set_metrics_history (init default_config) [sample 50 50 500 900])
                (sample 50 50 500 1000) (of_Z 1000) (of_Z 60) eq_refl) as H.
  cbv zeta in H. destruct H as (_ & _ & H & _). rewrite H. reflexivity.
Defined.

(** ** The decision on concrete scalers *)





(** The two examples of the specification.  The confidences are the
    floats 0.5700000000000001 and 0.8200000000000002: the sums 0.57 and
    0.82 of the specification, up to the rounding of each operation. *)
Example busy_confidence :
  should_scale Statistics.mean Statistics.mean_number busy (of_Z 1000)
  = (SCALE_UP, S754_finite false 5134103575202366 (-53)).
Proof. reflexivity. Qed.

Example idle_confidence :
  should_scale Statistics.mean Statistics.mean_number idle (of_Z 1000)
  = (SCALE_DOWN, S754_finite false 7385903388887615 (-53)).
Proof. vm_compute. reflexivity. Qed.



(** [negative_cpu] is the state five [add_metrics] calls reach. *)
Example negative_cpu_reached :
  let s := sample (-1000) 80 500 1000 in
  feed [s; s; s; s; s] (of_Z 1000) (init default_config) = negative_cpu.
Proof. reflexivity. Qed.

(** A fault that [execute_scaling] catches. *)
Example execute_scaling_fault :
  scaled_instances 2 (S754_infinity false) = Raise OverflowError
  /\ execute_scaling SCALE_UP lit_0_9 (of_Z 1000) (init infinite_factor_config)
     = (Ok false, init infinite_factor_config).
Proof. split; reflexivity. Qed.

(** ** The decision and its execution together *)

(** *** Order on floats *)

Lemma SFcompare_finite_lt (s1 s2 : bool) (m1 m2 : positive) (e1 e2 : Z) :
  SFcompare (S754_finite s1 m1 e1) (S754_finite s2 m2 e2) = Some Lt <->
  match s1, s2 with
  | true, false => True
  | false, true => False
  | false, false => e1 < e2 \/ (e1 = e2 /\ Zpos m1 < Zpos m2)
  | true, true => e2 < e1 \/ (e1 = e2 /\ Zpos m2 < Zpos m1)
  end.
Proof.
  cbn [SFcompare]. rewrite compare_cont_Eq.
  destruct s1, s2.
  - destruct (Z.compare_spec e1 e2) as [He|He|He].
    + destruct (Z.compare_spec (Zpos m1) (Zpos m2)); cbn [CompOpp];
        split; try discriminate; try lia; intros _; reflexivity.
    + split; [discriminate | lia].
    + split; [intros _; lia | reflexivity].
  - split; [intros _; exact I | reflexivity].
  - split; [discriminate | intros []].
  - destruct (Z.compare_spec e1 e2) as [He|He|He].
    + destruct (Z.compare_spec (Zpos m1) (Zpos m2));
        split; try discriminate; try lia; intros _; reflexivity.
    + split; [intros _; lia | reflexivity].
    + split; [discriminate | lia].
Qed.

Lemma ltb_trans (a b c : float) : ltb a b = true -> ltb b c = true -> ltb a c = true.
Proof.
  unfold ltb, SFltb.
  destruct (SFcompare a b) as [[| |]|] eqn:Eab; try discriminate.
  destruct (SFcompare b c) as [[| |]|] eqn:Ebc; try discriminate.
  intros _ _.
  assert (H : SFcompare a c = Some Lt); [| now rewrite H].
  destruct a as [sa|sa| |sa ma ea], b as [sb|sb| |sb mb eb], c as [sc|sc| |sc mc ec];
    try discriminate;
    try (destruct sa, sb, sc; discriminate || reflexivity);
    try (destruct sa, sb; discriminate || reflexivity);
    try (destruct sa, sc; discriminate || reflexivity);
    try (destruct sb, sc; discriminate || reflexivity).
  apply SFcompare_finite_lt in Eab. apply SFcompare_finite_lt in Ebc.
  apply SFcompare_finite_lt.
  destruct sa, sb, sc; try tauto; lia.
Qed.

Lemma ltb_int_gtb_int (x : float) (m n : Z) :
  m <= n -> ltb_int x m = true -> gtb_int x n = false.
Proof.
  unfold ltb_int, gtb_int, compare_int. intros Hmn.
  destruct x as [s|s| |s mx e]; try discriminate.
  - destruct (Z.compare_spec 0 m); try discriminate.
    destruct (Z.compare_spec 0 n); try reflexivity; lia.
  - destruct s; [reflexivity | discriminate].
  - destruct e as [|p|p].
    + destruct (Z.compare_spec (cond_Zopp s (Zpos mx) * 2 ^ 0) m); try discriminate.
      destruct (Z.compare_spec (cond_Zopp s (Zpos mx) * 2 ^ 0) n); try reflexivity; lia.
    + destruct (Z.compare_spec (cond_Zopp s (Zpos mx) * 2 ^ Zpos p) m); try discriminate.
      destruct (Z.compare_spec (cond_Zopp s (Zpos mx) * 2 ^ Zpos p) n);
        try reflexivity; lia.
    + assert (0 < 2 ^ Zpos p) by (apply Z.pow_pos_nonneg; lia).
      destruct (Z.compare_spec (cond_Zopp s (Zpos mx)) (m * 2 ^ Zpos p)); try discriminate.
      destruct (Z.compare_spec (cond_Zopp s (Zpos mx)) (n * 2 ^ Zpos p));
        try reflexivity; nia.
Qed.

(** X17: when [scale_down_threshold] is not above [scale_up_threshold], no
    averaged sample meets both the scale-up and the scale-down test: the
    order in which [should_scale] makes them decides nothing. *)
Theorem scale_up_excludes_scale_down (self : AutoScaler) (metrics : SystemMetrics) :
  leb (scale_down_threshold (config self)) (scale_up_threshold (config self)) = true ->
  _should_scale_up self metrics = true ->
  _should_scale_down self metrics = false.
Proof.
  intros Hth Hup. unfold _should_scale_up in Hup. unfold _should_scale_down.
  apply andb_true_iff in Hup. destruct Hup as [Hup _].
  apply leb_not_ltb in Hth.
  destruct (ltb (cpu_usage metrics) (scale_down_threshold (config self))) eqn:Ec;
    [| reflexivity].
  destruct (ltb (memory_usage metrics) (scale_down_threshold (config self))) eqn:Em;
    [| reflexivity].
  destruct (ltb_int (response_time metrics) 200) eqn:Er; [| reflexivity].
  apply orb_true_iff in Hup. destruct Hup as [Hup|Hup].
  - apply orb_true_iff in Hup. destruct Hup as [Hup|Hup].
    + rewrite (ltb_trans _ _ _ Hup Ec) in Hth. discriminate.
    + rewrite (ltb_trans _ _ _ Hup Em) in Hth. discriminate.
  - rewrite (ltb_int_gtb_int _ 200 1000 ltac:(lia) Er) in Hup. discriminate.
Qed.

Section Cycle.

Variable mean : list float -> float.
Variable mean_number : list number -> number.

(** What [should_scale] returns, with what it found. *)
Lemma should_scale_cases (self : AutoScaler) (now : float) :
  let avg := _calculate_average_metrics mean mean_number self now in
  should_scale mean mean_number self now = (NO_ACTION, zero)
  \/ (metrics_history self <> []
      /\ ((_should_scale_up self avg = true
           /\ should_scale mean mean_number self now
              = (SCALE_UP, _calculate_scale_up_confidence avg))
          \/ (_should_scale_down self avg = true
              /\ should_scale mean mean_number self now
                 = (SCALE_DOWN, _calculate_scale_down_confidence avg)))).
Proof.
  cbv zeta. unfold should_scale.
  destruct (Z.ltb_spec (Z.of_nat (length (metrics_history self))) 5); [now left |].
  destruct (ltb_int _ _); [now left |].
  destruct (_should_scale_up self _) eqn:Eup.
  - right. split; [apply five_samples_nonempty; lia | left; auto].
  - destruct (_should_scale_down self _) eqn:Edown; [| now left].
    right. split; [apply five_samples_nonempty; lia | right; auto].
Qed.

(** X18: [should_scale] never asks for more instances when the count is at
    [max_instances] or above, and never for fewer when it is at
    [min_instances] or below. *)
Theorem should_scale_at_bounds (self : AutoScaler) (now : float) :
  (max_instances (config self) <= current_instances self ->
     fst (should_scale mean mean_number self now) <> SCALE_UP)
  /\ (current_instances self <= min_instances (config self) ->
        fst (should_scale mean mean_number self now) <> SCALE_DOWN).
Proof.
  destruct (should_scale_cases self now) as [H|(_ & [[Hc H]|[Hc H]])];
    rewrite H; cbn [fst]; split; intros Hb; try discriminate.
  - unfold _should_scale_up in Hc. apply andb_true_iff in Hc. destruct Hc as [_ Hc].
    apply Z.ltb_lt in Hc. lia.
  - unfold _should_scale_down in Hc. apply andb_true_iff in Hc. destruct Hc as [_ Hc].
    apply Z.ltb_lt in Hc. lia.
Qed.

Lemma add_nan_r (x : float) : add x S754_nan = S754_nan.
Proof. now destruct x. Qed.

Lemma mul_nan_l (y : float) : mul S754_nan y = S754_nan.
Proof. reflexivity. Qed.

Lemma min_nan_l (y : float) : min S754_nan y = S754_nan.
Proof. unfold min, ltb, SFltb. now destruct y. Qed.

(** X19: a NaN among the three averages never leads to [SCALE_DOWN]; when
    the decision is [SCALE_UP] its confidence is NaN; and [execute_scaling]
    does not skip a NaN confidence: it acts on it as on 1.0. *)
Theorem nan_average_scales_up (self : AutoScaler) (now : float) :
  mean_cpu mean self = S754_nan
  \/ mean_memory mean self = S754_nan
  \/ mean_response_time mean self = S754_nan ->
  fst (should_scale mean mean_number self now) <> SCALE_DOWN
  /\ (fst (should_scale mean mean_number self now) = SCALE_UP ->
        snd (should_scale mean mean_number self now) = S754_nan)
  /\ forall action now',
       execute_scaling action S754_nan now' self = execute_scaling action one now' self.
Proof.
  intros Hnan. split; [| split]; [| | reflexivity].
  - destruct (should_scale_cases self now) as [H|(Hne & [[Hc H]|[Hc H]])];
      rewrite H; cbn [fst]; try discriminate.
    destruct (average_fields mean mean_number self now Hne) as (Ec & Em & Er).
    exfalso. unfold _should_scale_down in Hc.
    rewrite Ec, Em, Er in Hc.
    destruct Hnan as [Hn|[Hn|Hn]]; rewrite Hn in Hc;
      rewrite ?andb_false_r in Hc; discriminate.
  - destruct (should_scale_cases self now) as [H|(Hne & [[Hc H]|[Hc H]])];
      rewrite H; cbn [fst snd]; try discriminate.
    intros _.
    destruct (average_fields mean mean_number self now Hne) as (Ec & Em & Er).
    unfold _calculate_scale_up_confidence. rewrite Ec, Em, Er.
    destruct Hnan as [Hn|[Hn|Hn]]; rewrite Hn.
    + reflexivity.
    + change (div S754_nan lit_100) with S754_nan.
      rewrite min_nan_l, mul_nan_l, add_nan_r. reflexivity.
    + change (div S754_nan lit_2000) with S754_nan.
      rewrite min_nan_l, mul_nan_l, add_nan_r. reflexivity.
Qed.

(** X20: a decision that was carried out starts the cooldown: when
    [execute_scaling] returns [True] at time [t], the history and the
    configuration are as before, and [should_scale] answers
    [(NO_ACTION, 0.0)] at every time [now] with
    [now - t < cooldown_period]. *)
Theorem execute_scaling_starts_cooldown
  (self : AutoScaler) (action : ScalingAction) (confidence t now : float) :
  fst (execute_scaling action confidence t self) = Ok true ->
  ltb_int (sub now t) (cooldown_period (config self)) = true ->
  let self' := snd (execute_scaling action confidence t self) in
  should_scale mean mean_number self' now = (NO_ACTION, zero)
  /\ metrics_history self' = metrics_history self
  /\ config self' = config self.
Proof.
  cbv zeta. rewrite execute_scaling_eq.
  destruct (ltb confidence lit_0_7); [discriminate |].
  destruct (scaling_target self action) as [n|e]; [| discriminate].
  intros _ Hcool. cbn [snd]. split; [| split; reflexivity].
  unfold should_scale, applied. cbn [metrics_history last_scaling_time config].
  rewrite Hcool. now destruct (_ <? 5).
Qed.

End Cycle.

(** *** The direction of a scaling *)

(** X21: whatever the configuration, a scale-up that was carried out leaves
    at most [max_instances] instances, a scale-down at least
    [min_instances], and both set [last_scaling_time] to the time of the
    call. *)
Theorem execute_scaling_clamps
  (self : AutoScaler) (action : ScalingAction) (confidence now : float) :
  fst (execute_scaling action confidence now self) = Ok true ->
  let self' := snd (execute_scaling action confidence now self) in
  (action = SCALE_UP -> current_instances self' <= max_instances (config self))
  /\ (action = SCALE_DOWN -> min_instances (config self) <= current_instances self')
  /\ last_scaling_time self' = now.
Proof.
  cbv zeta. rewrite execute_scaling_eq.
  destruct (ltb confidence lit_0_7); [discriminate |].
  unfold scaling_target.
  destruct action;
    try (destruct (scaled_instances _ _) as [n|e]; [| discriminate]);
    intros _; cbn [snd applied current_instances last_scaling_time];
    repeat split; try discriminate; intros _; lia.
Qed.

(** X22: under a sound configuration and with the count within its bounds,
    [execute_scaling] never lowers the count on [SCALE_UP] and never raises
    it on [SCALE_DOWN], whatever the confidence. *)
Theorem execute_scaling_direction (self : AutoScaler) (confidence now : float) :
  sound_config (config self) -> within_bounds self ->
  current_instances self
    <= current_instances (snd (execute_scaling SCALE_UP confidence now self))
  /\ current_instances (snd (execute_scaling SCALE_DOWN confidence now self))
     <= current_instances self.
Proof.
  intros (Hmm & Hmax & Vu & Hu & Vd & Hd0 & Hd1) Hb. unfold within_bounds in Hb.
  assert (Hr : 0 <= current_instances self < 2 ^ 53) by lia.
  rewrite !execute_scaling_eq.
  destruct (ltb confidence lit_0_7); [cbn [snd]; lia |].
  unfold scaling_target. split.
  - destruct (scaled_instances _ _) as [n|] eqn:E; cbn [snd applied current_instances];
      [| lia].
    pose proof (scaled_instances_ge _ _ _ Hr Vu Hu E). lia.
  - destruct (scaled_instances _ _) as [n|] eqn:E; cbn [snd applied current_instances];
      [| lia].
    pose proof (scaled_instances_le _ _ _ Hr Vd Hd0 Hd1 E). lia.
Qed.

(** *** The properties on concrete scalers *)

(** The averages of [busy] meet the scale-up test, so not the other. *)
Lemma scale_up_excludes_scale_down_witness :
  _should_scale_down busy
    (_calculate_average_metrics Statistics.mean Statistics.mean_number busy (of_Z 1000))
  = false.
Proof. apply scale_up_excludes_scale_down; reflexivity. Defined.

(** Five samples with a NaN cpu usage and a memory usage of 80: the
    decision is [SCALE_UP] with confidence NaN. *)
Lemma nan_average_scales_up_witness :
  mean_cpu Statistics.mean nan_cpu = S754_nan
  /\ fst (should_scale Statistics.mean Statistics.mean_number nan_cpu (of_Z 1000))
     = SCALE_UP
  /\ snd (should_scale Statistics.mean Statistics.mean_number nan_cpu (of_Z 1000))
     = S754_nan.
Proof.
  assert (H : mean_cpu Statistics.mean nan_cpu = S754_nan) by reflexivity.
  split; [exact H |]. split; [reflexivity |].
  apply (proj1 (proj2 (nan_average_scales_up Statistics.mean Statistics.mean_number
                         nan_cpu (of_Z 1000) (or_introl H)))).
  reflexivity.
Defined.

(** [busy] scaled up at time 1000 decides nothing at time 1100. *)
Lemma execute_scaling_starts_cooldown_witness :
  should_scale Statistics.mean Statistics.mean_number
    (snd (execute_scaling SCALE_UP lit_0_9 (of_Z 1000) busy)) (of_Z 1100)
  = (NO_ACTION, zero).
Proof.
  apply (execute_scaling_starts_cooldown Statistics.mean Statistics.mean_number
           busy SCALE_UP lit_0_9 (of_Z 1000) (of_Z 1100)); reflexivity.
Defined.

(** Under a scale-up factor of 0.1 the count falls to 0, below
    [min_instances], yet not above [max_instances]. *)
Lemma execute_scaling_clamps_witness :
  current_instances (snd (execute_scaling SCALE_UP lit_0_9 (of_Z 1000)
                            (init shrinking_config)))
  <= max_instances (config (init shrinking_config)).
Proof.
  apply (execute_scaling_clamps (init shrinking_config) SCALE_UP lit_0_9 (of_Z 1000));
    reflexivity.
Defined.

(** From the initial state under the default configuration. *)
Lemma execute_scaling_direction_witness :
  current_instances (init default_config)
    <= current_instances
         (snd (execute_scaling SCALE_UP lit_0_9 (of_Z 1000) (init default_config)))
  /\ current_instances
       (snd (execute_scaling SCALE_DOWN lit_0_9 (of_Z 1000) (init default_config)))
     <= current_instances (init default_config).
Proof.
  apply (execute_scaling_direction (init default_config) lit_0_9 (of_Z 1000)).
  - exact sound_default_config.
  - unfold within_bounds. simpl. lia.
Defined.

(** ** The linked list *)

Module LinkedListFacts.
Import LinkedList.
Section Facts.

Variable A : Type.

(** Walking the chain raises nothing but [AttributeError]. *)
Lemma walk_raises (steps : nat) :
  forall (current : list A) (e : exn), walk A steps current = Raise e -> e = AttributeError.
Proof.
  induction steps as [|k IH]; intros current e; simpl; [discriminate |].
  destruct current as [|x next]; [congruence |].
  destruct (walk A k next) as [[passed reached]|e'] eqn:E; [discriminate |].
  intros H. inversion H. subst e'. now apply (IH next).
Qed.

(** Within the chain the walk returns, splitting it at the node it reached. *)
Lemma walk_returns (steps : nat) :
  forall current : list A,
    (steps <= length current)%nat ->
    exists passed reached,
      walk A steps current = Ok (passed, reached)
      /\ current = passed ++ reached /\ length passed = steps.
Proof.
  induction steps as [|k IH]; intros current Hlen; simpl.
  - exists [], current. auto.
  - destruct current as [|x next]; simpl in Hlen; [lia |].
    destruct (IH next ltac:(lia)) as (passed & reached & Hw & Hc & Hl).
    rewrite Hw. exists (x :: passed), reached. simpl. subst next. auto.
Qed.

(** Case analysis on everything a method body branches on. *)
Ltac branches :=
  repeat match goal with
    | |- context [walk A ?k ?c] =>
        let E := fresh "E" in
        destruct (walk A k c) as [[? ?]|?] eqn:E; [| apply walk_raises in E; subst]
    | |- context [match ?l with [] => _ | _ :: _ => _ end] => destruct l
    end;
  cbn [fst snd].

Lemma insert_at_position_index_error (self : LinkedList A) (data : A) (position : Z) :
  position < 0 \/ size A self < position ->
  insert_at_position A data position self = (Raise IndexError, self).
Proof.
  intros H. unfold insert_at_position, bind, get, raise.
  destruct (Z.ltb_spec position 0); [reflexivity |].
  destruct (Z.ltb_spec (size A self) position); [reflexivity | lia].
Qed.

Lemma insert_at_position_in_range (self : LinkedList A) (data : A) (position : Z) (e : exn) :
  0 <= position <= size A self ->
  fst (insert_at_position A data position self) = Raise e ->
  e = AttributeError /\ snd (insert_at_position A data position self) = self.
Proof.
  intros H. unfold insert_at_position, insert_at_beginning, bind, get, put, raise, lift.
  destruct (Z.ltb_spec position 0); [lia |].
  destruct (Z.ltb_spec (size A self) position); [lia |]. cbn [orb].
  destruct (position =? 0); cbn [fst snd]; [discriminate |].
  branches; intros He; inversion He; auto.
Qed.

Lemma delete_by_position_index_error (self : LinkedList A) (position : Z) :
  position < 0 \/ size A self <= position ->
  delete_by_position A position self = (Raise IndexError, self).
Proof.
  intros H. unfold delete_by_position, bind, get, raise.
  destruct (Z.ltb_spec position 0); [reflexivity |].
  destruct (Z.leb_spec (size A self) position); [reflexivity | lia].
Qed.

Lemma delete_by_position_in_range (self : LinkedList A) (position : Z) (e : exn) :
  0 <= position < size A self ->
  fst (delete_by_position A position self) = Raise e ->
  e = AttributeError /\ snd (delete_by_position A position self) = self.
Proof.
  intros H. unfold delete_by_position, bind, get, put, raise, lift, ret.
  destruct (Z.ltb_spec position 0); [lia |].
  destruct (Z.leb_spec (size A self) position); [lia |]. cbn [orb].
  destruct (position =? 0); branches; intros He; inversion He; auto.
Qed.

Lemma get_element_at_position_index_error (self : LinkedList A) (position : Z) :
  position < 0 \/ size A self <= position ->
  get_element_at_position A position self = (Raise IndexError, self).
Proof.
  intros H. unfold get_element_at_position, bind, get, raise.
  destruct (Z.ltb_spec position 0); [reflexivity |].
  destruct (Z.leb_spec (size A self) position); [reflexivity | lia].
Qed.

Lemma get_element_at_position_in_range (self : LinkedList A) (position : Z) (e : exn) :
  0 <= position < size A self ->
  fst (get_element_at_position A position self) = Raise e ->
  e = AttributeError /\ snd (get_element_at_position A position self) = self.
Proof.
  intros H. unfold get_element_at_position, bind, get, put, raise, lift, ret.
  destruct (Z.ltb_spec position 0); [lia |].
  destruct (Z.leb_spec (size A self) position); [lia |]. cbn [orb].
  branches; intros He; inversion He; auto.
Qed.

(** C10: on a list whose counter is [n], [insert_at_position] raises
    [IndexError] exactly when the position is negative or above [n], and
    [delete_by_position] and [get_element_at_position] exactly when it is
    negative or at least [n]; a call that raises leaves the list as it was. *)
Theorem position_out_of_range (self : LinkedList A) (data : A) (position : Z) :
  let n := size A self in
  (fst (insert_at_position A data position self) = Raise IndexError
     <-> position < 0 \/ n < position)
  /\ (fst (delete_by_position A position self) = Raise IndexError
        <-> position < 0 \/ n <= position)
  /\ (fst (get_element_at_position A position self) = Raise IndexError
        <-> position < 0 \/ n <= position)
  /\ (forall e, fst (insert_at_position A data position self) = Raise e ->
        snd (insert_at_position A data position self) = self)
  /\ (forall e, fst (delete_by_position A position self) = Raise e ->
        snd (delete_by_position A position self) = self)
  /\ (forall e, fst (get_element_at_position A position self) = Raise e ->
        snd (get_element_at_position A position self) = self).
Proof.
  cbv zeta. repeat split.
  - intros H. destruct (Z_lt_le_dec position 0); [now left |].
    destruct (Z_lt_le_dec (size A self) position); [now right |].
    destruct (insert_at_position_in_range self data position _ ltac:(lia) H).
    discriminate.
  - intros H. now rewrite insert_at_position_index_error.
  - intros H. destruct (Z_lt_le_dec position 0); [now left |].
    destruct (Z_le_gt_dec (size A self) position); [now right |].
    destruct (delete_by_position_in_range self position _ ltac:(lia) H).
    discriminate.
  - intros H. now rewrite delete_by_position_index_error.
  - intros H. destruct (Z_lt_le_dec position 0); [now left |].
    destruct (Z_le_gt_dec (size A self) position); [now right |].
    destruct (get_element_at_position_in_range self position _ ltac:(lia) H).
    discriminate.
  - intros H. now rewrite get_element_at_position_index_error.
  - intros e H.
    destruct (Z_lt_le_dec position 0);
      [now rewrite insert_at_position_index_error by lia |].
    destruct (Z_lt_le_dec (size A self) position);
      [now rewrite insert_at_position_index_error by lia |].
    apply (insert_at_position_in_range self data position e); [lia | exact H].
  - intros e H.
    destruct (Z_lt_le_dec position 0);
      [now rewrite delete_by_position_index_error by lia |].
    destruct (Z_le_gt_dec (size A self) position);
      [now rewrite delete_by_position_index_error by lia |].
    apply (delete_by_position_in_range self position e); [lia | exact H].
  - intros e H.
    destruct (Z_lt_le_dec position 0);
      [now rewrite get_element_at_position_index_error by lia |].
    destruct (Z_le_gt_dec (size A self) position);
      [now rewrite get_element_at_position_index_error by lia |].
    apply (get_element_at_position_in_range self position e); [lia | exact H].
Qed.

(** On a list whose counter agrees with its chain, a position in range is
    served: the three methods return, at the position asked for. *)
Lemma insert_at_position_returns (self : LinkedList A) (data : A) (position : Z) :
  well_formed A self -> 0 <= position <= size A self ->
  exists self',
    insert_at_position A data position self = (Ok tt, self')
    /\ head A self' =
         firstn (Z.to_nat position) (head A self)
           ++ data :: skipn (Z.to_nat position) (head A self)
    /\ well_formed A self'.
Proof.
  unfold well_formed. intros Hwf H.
  unfold insert_at_position, insert_at_beginning, bind, get, put, raise, lift.
  destruct (Z.ltb_spec position 0); [lia |].
  destruct (Z.ltb_spec (size A self) position); [lia |]. cbn [orb].
  destruct (Z.eqb_spec position 0) as [->|Hp].
  - eexists. split; [reflexivity |]. simpl. split; [reflexivity | lia].
  - destruct (walk_returns (Z.to_nat (position - 1)) (head A self) ltac:(lia))
      as (passed & reached & Hw & Hc & Hl).
    rewrite Hw. cbn [fst snd].
    assert (Hlen : length (head A self) = (length passed + length reached)%nat)
      by (rewrite Hc; apply length_app).
    destruct reached as [|x next]; [simpl in Hlen; lia |].
    eexists. split; [reflexivity |]. cbn [head size].
    split.
    + rewrite Hc.
      replace (passed ++ x :: next) with ((passed ++ [x]) ++ next)
        by (now rewrite <- app_assoc).
      replace (Z.to_nat position) with (length (passed ++ [x]))
        by (rewrite length_app; simpl; lia).
      rewrite firstn_app, skipn_app, firstn_all, skipn_all, Nat.sub_diag. simpl.
      now rewrite app_nil_r, <- app_assoc.
    + rewrite Hwf, Hc, !length_app. simpl. lia.
Qed.

Lemma get_element_at_position_returns (self : LinkedList A) (position : Z) :
  well_formed A self -> 0 <= position < size A self ->
  exists data,
    get_element_at_position A position self = (Ok data, self)
    /\ nth_error (head A self) (Z.to_nat position) = Some data.
Proof.
  unfold well_formed. intros Hwf H.
  unfold get_element_at_position, bind, get, raise, lift, ret.
  destruct (Z.ltb_spec position 0); [lia |].
  destruct (Z.leb_spec (size A self) position); [lia |]. cbn [orb].
  destruct (walk_returns (Z.to_nat position) (head A self) ltac:(lia))
    as (passed & reached & Hw & Hc & Hl).
  rewrite Hw. cbn [fst snd].
  assert (Hlen : length (head A self) = (length passed + length reached)%nat)
    by (rewrite Hc; apply length_app).
  destruct reached as [|x next]; [simpl in Hlen; lia |].
  exists x. split; [reflexivity |].
  rewrite Hc, <- Hl, nth_error_app2, Nat.sub_diag by lia. reflexivity.
Qed.

Lemma delete_by_position_returns (self : LinkedList A) (position : Z) :
  well_formed A self -> 0 <= position < size A self ->
  exists data self',
    delete_by_position A position self = (Ok data, self')
    /\ nth_error (head A self) (Z.to_nat position) = Some data
    /\ head A self' =
         firstn (Z.to_nat position) (head A self)
           ++ skipn (S (Z.to_nat position)) (head A self)
    /\ well_formed A self'.
Proof.
  unfold well_formed. intros Hwf H.
  unfold delete_by_position, bind, get, put, raise, lift, ret.
  destruct (Z.ltb_spec position 0); [lia |].
  destruct (Z.leb_spec (size A self) position); [lia |]. cbn [orb].
  destruct (Z.eqb_spec position 0) as [->|Hp].
  - destruct (head A self) as [|x next] eqn:Eh; [simpl in Hwf; lia |].
    exists x. eexists. split; [reflexivity |]. simpl in *. repeat split. lia.
  - destruct (walk_returns (Z.to_nat (position - 1)) (head A self) ltac:(lia))
      as (passed & reached & Hw & Hc & Hl).
    rewrite Hw. cbn [fst snd].
    assert (Hlen : length (head A self) = (length passed + length reached)%nat)
      by (rewrite Hc; apply length_app).
    destruct reached as [|x [|data next]]; try (simpl in Hlen; lia).
    exists data. eexists. split; [reflexivity |]. cbn [head size].
    assert (Hpos : Z.to_nat position = length (passed ++ [x]))
      by (rewrite length_app; simpl; lia).
    replace (passed ++ x :: data :: next) with ((passed ++ [x]) ++ data :: next) in Hc
      by (now rewrite <- app_assoc).
    split; [| split].
    + rewrite Hc, Hpos, nth_error_app2, Nat.sub_diag by lia. reflexivity.
    + rewrite Hc, Hpos.
      replace (S (length (passed ++ [x]))) with (length ((passed ++ [x]) ++ [data]))
        by (rewrite !length_app; simpl; lia).
      rewrite firstn_app, firstn_all, Nat.sub_diag. simpl. rewrite app_nil_r.
      replace ((passed ++ [x]) ++ data :: next) with (((passed ++ [x]) ++ [data]) ++ next)
        by (now rewrite <- !app_assoc).
      rewrite skipn_app, skipn_all, Nat.sub_diag. simpl. now rewrite <- app_assoc.
    + rewrite Hwf, Hc, !length_app. simpl. lia.
Qed.

End Facts.
End LinkedListFacts.

(** ** The linked list: the other methods *)

Module LinkedListMethods.
Import LinkedList LinkedListFacts.
Section Facts.

Variable A : Type.
Variable eqb : A -> A -> bool.
Variable gtb : A -> A -> bool.
Variable leb : A -> A -> bool.

(** *** The counter and the chain *)

Lemma delete_after_length (data : A) (next : list A) :
  forall (current : A) (chain : list A),
    delete_after A eqb current next data = Some chain -> length chain = length next.
Proof.
  induction next as [|y rest IH]; intros current chain; simpl; [discriminate |].
  destruct (eqb y data); [intros H; inversion H; reflexivity |].
  destruct (delete_after A eqb y rest data) as [c|] eqn:E; [| discriminate].
  intros H. inversion H. simpl. f_equal. now apply (IH y).
Qed.

Lemma remove_repeats_length (next : list A) :
  forall x : A,
    Z.of_nat (length (fst (remove_repeats A eqb x next)))
    = Z.of_nat (length next) + 1 - snd (remove_repeats A eqb x next).
Proof.
  induction next as [|y rest IH]; intros x; cbn [remove_repeats]; [reflexivity |].
  destruct (eqb x y); cbn [fst snd length]; rewrite ?Nat2Z.inj_succ.
  - specialize (IH x). lia.
  - specialize (IH y). lia.
Qed.

Lemma reverse_loop_rev (current : list A) :
  forall previous, reverse_loop A previous current = rev current ++ previous.
Proof.
  induction current as [|x next IH]; intros previous; simpl; [reflexivity |].
  rewrite IH, <- app_assoc. reflexivity.
Qed.

Lemma mutate_well_formed (call : mutation A) (self : LinkedList A) :
  well_formed A self -> well_formed A (mutate eqb call self).
Proof.
  intros Hwf. destruct call as [data|data|data position|data|position| |]; simpl.
  - unfold well_formed in *. simpl. lia.
  - unfold well_formed in *. simpl. rewrite length_app. simpl. lia.
  - destruct (Z_lt_le_dec position 0);
      [now rewrite insert_at_position_index_error by lia |].
    destruct (Z_lt_le_dec (size A self) position);
      [now rewrite insert_at_position_index_error by lia |].
    destruct (insert_at_position_returns A self data position Hwf ltac:(lia))
      as (self' & Heq & _ & Hwf').
    now rewrite Heq.
  - unfold delete_by_value, bind, get, put, ret. unfold well_formed in *.
    destruct (head A self) as [|x next] eqn:Eh; [simpl; now rewrite Eh |].
    destruct (eqb x data); [simpl in *; lia |].
    destruct (delete_after A eqb x next data) as [chain|] eqn:E; simpl.
    + apply delete_after_length in E. simpl in Hwf. lia.
    + now rewrite Eh.
  - destruct (Z_lt_le_dec position 0);
      [now rewrite delete_by_position_index_error by lia |].
    destruct (Z_le_gt_dec (size A self) position);
      [now rewrite delete_by_position_index_error by lia |].
    destruct (delete_by_position_returns A self position Hwf ltac:(lia))
      as (data & self' & Heq & _ & _ & Hwf').
    now rewrite Heq.
  - unfold reverse, bind, get, put, ret. unfold well_formed in *.
    destruct (head A self) as [|x [|y next]] eqn:Eh; cbn [fst snd head size];
      try (now rewrite Eh).
    now rewrite reverse_loop_rev, Hwf, app_nil_r, length_rev.
  - unfold remove_duplicates, bind, get, put, ret. unfold well_formed in *.
    destruct (head A self) as [|x [|y next]] eqn:Eh; cbn [fst snd head size];
      try (now rewrite Eh).
    rewrite remove_repeats_length, Hwf. cbn [length]. lia.
Qed.

Lemma mutations_well_formed (calls : list (mutation A)) :
  forall self,
    well_formed A self ->
    well_formed A (fold_left (fun s call => mutate eqb call s) calls self).
Proof.
  induction calls as [|call rest IH]; intros self Hwf; simpl; [exact Hwf |].
  apply IH, mutate_well_formed, Hwf.
Qed.

(** X1: whatever calls of [insert_at_beginning], [insert_at_end],
    [insert_at_position], [delete_by_value], [delete_by_position], [reverse]
    and [remove_duplicates] are made on a new list, in whatever order and
    with whatever arguments (failing calls included), [get_size] returns the
    length of what [to_list] returns: the counter is the number of nodes.
    So [is_empty] answers [True] exactly when [get_size] returns 0. *)
Theorem size_counts_nodes (calls : list (mutation A)) :
  let self := fold_left (fun s call => mutate eqb call s) calls (empty A) in
  exists chain,
    to_list A self = (Ok chain, self)
    /\ get_size A self = (Ok (Z.of_nat (length chain)), self)
    /\ (is_empty A self = true <-> get_size A self = (Ok 0, self)).
Proof.
  cbv zeta.
  pose proof (mutations_well_formed calls (empty A) eq_refl) as Hwf.
  eexists. split; [reflexivity |].
  unfold get_size, is_empty, bind, get, ret. rewrite Hwf.
  split; [reflexivity |].
  destruct (head A _) as [|x next]; cbn [length]; split; try reflexivity;
    discriminate.
Qed.

(** *** [search] *)

Lemma search_from_found (data : A) (chain : list A) :
  forall position : Z,
    0 <= position ->
    search_from A eqb chain position data <> -1 ->
    exists (n : nat) (x : A),
      search_from A eqb chain position data = position + Z.of_nat n
      /\ nth_error chain n = Some x /\ eqb x data = true
      /\ forall y, In y (firstn n chain) -> eqb y data = false.
Proof.
  induction chain as [|x next IH]; intros position Hp; simpl; [congruence |].
  destruct (eqb x data) eqn:E.
  - intros _. exists O, x. simpl. repeat split; try lia; auto; intros y [].
  - intros H. destruct (IH (position + 1) ltac:(lia) H) as (n & z & Hs & Hn & Hz & Hf).
    exists (S n), z. simpl. repeat split; auto; [lia |].
    intros y [<-|Hy]; auto.
Qed.

Lemma search_from_missing (data : A) (chain : list A) :
  forall position : Z,
    0 <= position ->
    search_from A eqb chain position data = -1 ->
    forall x, In x chain -> eqb x data = false.
Proof.
  induction chain as [|x next IH]; intros position Hp; simpl; [intros _ y [] |].
  destruct (eqb x data) eqn:E; [lia |].
  intros H y [<-|Hy]; [exact E | now apply (IH (position + 1) ltac:(lia) H)].
Qed.

(** X2: [search] leaves the list as it is and returns -1 exactly when no
    node holds data equal to the one looked for; otherwise it returns the
    index of the first such node, all nodes before it holding other data. *)
Theorem search_first_match (self : LinkedList A) (data : A) :
  exists i : Z,
    search A eqb data self = (Ok i, self)
    /\ ((i = -1 /\ forall x, In x (head A self) -> eqb x data = false)
        \/ (0 <= i < Z.of_nat (length (head A self))
            /\ exists x, nth_error (head A self) (Z.to_nat i) = Some x
                         /\ eqb x data = true
                         /\ forall y, In y (firstn (Z.to_nat i) (head A self)) ->
                                      eqb y data = false)).
Proof.
  exists (search_from A eqb (head A self) 0 data). split; [reflexivity |].
  destruct (Z.eq_dec (search_from A eqb (head A self) 0 data) (-1)) as [H|H].
  - left. split; [exact H |]. now apply (search_from_missing data _ 0).
  - right. destruct (search_from_found data (head A self) 0 ltac:(lia) H)
      as (n & x & Hs & Hn & Hx & Hf).
    rewrite Hs. simpl (0 + _). rewrite Nat2Z.id.
    assert (n < length (head A self))%nat by (apply nth_error_Some; congruence).
    split; [lia |]. exists x. auto.
Qed.

(** X3: on a list whose counter agrees with its chain, the index [search]
    returns, when it is not -1, is one [get_element_at_position] accepts,
    and the data found there is equal to the data looked for. *)
Theorem search_then_get (self : LinkedList A) (data : A) (i : Z) :
  well_formed A self ->
  fst (search A eqb data self) = Ok i -> i <> -1 ->
  exists x, get_element_at_position A i self = (Ok x, self) /\ eqb x data = true.
Proof.
  intros Hwf Hs Hi. unfold search, bind, get, ret in Hs. cbn [fst] in Hs.
  inversion Hs as [Hs']. rewrite <- Hs' in Hi.
  destruct (search_from_found data (head A self) 0 ltac:(lia) Hi)
    as (n & x & Hn & Hx & Hd & _).
  rewrite Hn in Hs'. cbn [Z.add] in Hs'. subst i.
  assert (n < length (head A self))%nat by (apply nth_error_Some; congruence).
  destruct (get_element_at_position_returns A self (Z.of_nat n) Hwf
              ltac:(unfold well_formed in Hwf; lia)) as (y & Hg & Hy).
  rewrite Nat2Z.id in Hy. exists y. split; [rewrite Hn; exact Hg |]. congruence.
Qed.

(** *** [delete_by_value] *)

Lemma delete_after_search (data : A) (next : list A) :
  forall (current : A) (position : Z),
    0 <= position ->
    match delete_after A eqb current next data with
    | Some chain =>
        exists n : nat,
          search_from A eqb next position data = position + Z.of_nat n
          /\ chain = current :: firstn n next ++ skipn (S n) next
    | None => search_from A eqb next position data = -1
    end.
Proof.
  induction next as [|y rest IH]; intros current position Hp; simpl; [reflexivity |].
  destruct (eqb y data).
  - exists O. simpl. split; [lia | reflexivity].
  - specialize (IH y (position + 1) ltac:(lia)).
    destruct (delete_after A eqb y rest data) as [chain|].
    + destruct IH as (n & Hs & Hc). exists (S n). split; [lia |]. now rewrite Hc.
    + exact IH.
Qed.

(** X4: [delete_by_value] deletes the node [search] finds.  On a list whose
    counter agrees with its chain, when [search] returns -1 it returns
    [False] and changes nothing; otherwise it returns [True] and leaves the
    state [delete_by_position] leaves at the index [search] returned, the
    data deleted being equal to the data asked for. *)
Theorem delete_by_value_deletes_found (self : LinkedList A) (data : A) :
  well_formed A self ->
  exists i : Z,
    fst (search A eqb data self) = Ok i
    /\ ((i = -1 /\ delete_by_value A eqb data self = (Ok false, self))
        \/ (i <> -1
            /\ fst (delete_by_value A eqb data self) = Ok true
            /\ exists x,
                 delete_by_position A i self
                 = (Ok x, snd (delete_by_value A eqb data self))
                 /\ eqb x data = true)).
Proof.
  intros Hwf. exists (search_from A eqb (head A self) 0 data). split; [reflexivity |].
  unfold delete_by_value, bind, get, put, ret.
  destruct (head A self) as [|x next] eqn:Eh; [left; split; reflexivity |].
  simpl search_from.
  assert (Hsize : size A self = Z.of_nat (length next) + 1)
    by (unfold well_formed in Hwf; rewrite Hwf, Eh; simpl length; lia).
  destruct (eqb x data) eqn:Ex.
  - right. split; [lia |]. split; [reflexivity |]. exists x. split; [| exact Ex].
    unfold delete_by_position, bind, get, put, ret, raise. rewrite Eh. simpl.
    destruct (Z.leb_spec (size A self) 0); [lia | reflexivity].
  - pose proof (delete_after_search data next x 1 ltac:(lia)) as Hd.
    destruct (delete_after A eqb x next data) as [chain|] eqn:Ed.
    + destruct Hd as (n & Hs & Hc). right. rewrite Hs. split; [lia |].
      split; [reflexivity |].
      assert (Hn : (n < length next)%nat).
      { destruct (search_from_found data next 1 ltac:(lia) ltac:(lia))
          as (n' & z & Hs' & Hn' & _).
        assert (n' = n) by lia. subst n'. apply nth_error_Some. congruence. }
      destruct (delete_by_position_returns A self (1 + Z.of_nat n) Hwf ltac:(lia))
        as (z & self' & Hdel & Hz & Hh & Hwf').
      rewrite Hdel. exists z. cbn [snd].
      replace (Z.to_nat (1 + Z.of_nat n)) with (S n) in Hz, Hh by lia.
      rewrite Eh in Hz, Hh. simpl in Hz, Hh.
      split.
      * f_equal. destruct self' as [h' s']. unfold well_formed in Hwf'.
        cbn [head size] in Hh, Hwf'. apply delete_after_length in Ed.
        assert (Hhc : h' = chain) by (rewrite Hc; exact Hh).
        rewrite Hwf', Hhc, Ed. f_equal. lia.
      * destruct (search_from_found data next 1 ltac:(lia) ltac:(lia))
          as (n' & w & Hs' & Hn' & Hw & _).
        assert (n' = n) by lia. subst n'. congruence.
    + left. split; [exact Hd | reflexivity].
Qed.

(** *** [reverse] *)

(** X5: [reverse] returns nothing, puts the nodes in the opposite order and
    keeps the counter; reversing twice gives the list back. *)
Theorem reverse_reverses (self : LinkedList A) :
  fst (reverse A self) = Ok tt
  /\ head A (snd (reverse A self)) = rev (head A self)
  /\ size A (snd (reverse A self)) = size A self
  /\ snd (reverse A (snd (reverse A self))) = self.
Proof.
  assert (H : fst (reverse A self) = Ok tt
              /\ snd (reverse A self) = {| head := rev (head A self); size := size A self |}).
  { unfold reverse, bind, get, put, ret. destruct self as [h s]. cbn [head size].
    destruct h as [|x [|y next]]; cbn [fst snd]; try (split; reflexivity).
    split; [reflexivity |]. now rewrite reverse_loop_rev, app_nil_r. }
  destruct H as [H1 H2]. rewrite H2. repeat split; try assumption.
  assert (H' : snd (reverse A {| head := rev (head A self); size := size A self |})
               = {| head := rev (rev (head A self)); size := size A self |}).
  { unfold reverse, bind, get, put, ret. cbn [head size].
    destruct (rev (head A self)) as [|x [|y next]]; cbn [fst snd]; try reflexivity.
    now rewrite reverse_loop_rev, app_nil_r. }
  rewrite H', rev_involutive. now destruct self.
Qed.

(** *** [sort] *)

Lemma bubble_permutation (next : list A) :
  forall x, Permutation (x :: next) (fst (bubble A gtb x next)).
Proof.
  induction next as [|y rest IH]; intros x; simpl; [reflexivity |].
  destruct (gtb x y); simpl.
  - rewrite perm_swap. apply perm_skip, IH.
  - apply perm_skip, IH.
Qed.

Lemma bubble_head (next : list A) :
  forall x, exists y rest, fst (bubble A gtb x next) = y :: rest.
Proof.
  destruct next as [|y rest]; intros x; simpl; [eauto |].
  destruct (gtb x y); simpl; eauto.
Qed.

(** A pass that swaps nothing found the chain in order and left it as it
    was. *)
Lemma bubble_no_swap (next : list A) :
  forall x,
    snd (bubble A gtb x next) = false ->
    fst (bubble A gtb x next) = x :: next /\ ascending gtb (x :: next).
Proof.
  unfold ascending.
  induction next as [|y rest IH]; intros x; simpl.
  - intros _. split; [reflexivity |]. repeat constructor.
  - destruct (gtb x y) eqn:E; simpl; [discriminate |].
    intros H. destruct (IH y H) as [Hf Hs]. rewrite Hf.
    split; [reflexivity |]. constructor; [exact Hs | constructor; exact E].
Qed.

Lemma count_above_permutation (x : A) (l l' : list A) :
  Permutation l l' -> count_above gtb x l = count_above gtb x l'.
Proof. induction 1; simpl; lia. Qed.

Lemma bubble_fixed (next : list A) :
  forall x, ascending gtb (x :: next) -> bubble A gtb x next = (x :: next, false).
Proof.
  unfold ascending.
  induction next as [|y rest IH]; intros x H; cbn [bubble]; [reflexivity |].
  apply Sorted_inv in H. destruct H as [Hs Hh]. apply HdRel_inv in Hh.
  rewrite Hh, (IH y Hs). reflexivity.
Qed.

Lemma sort_loop_sound (fuel : nat) :
  forall x next chain,
    sort_loop A gtb fuel x next = Some chain ->
    Permutation (x :: next) chain /\ ascending gtb chain.
Proof.
  induction fuel as [|fuel IH]; intros x next chain; cbn [sort_loop]; [discriminate |].
  pose proof (bubble_permutation next x) as Hp.
  pose proof (bubble_no_swap next x) as Hno.
  destruct (bubble_head next x) as (y & rest & Hh).
  destruct (bubble A gtb x next) as [chain' swapped]. cbn [fst snd] in *.
  destruct swapped.
  - subst chain'. intros H. destruct (IH _ _ _ H) as [Hp' Ha].
    split; [now rewrite Hp | exact Ha].
  - intros H. inversion H. subst chain. destruct (Hno eq_refl) as [Hf Ha].
    split; [exact Hp | now rewrite Hf].
Qed.

(** X14: whatever [>] is, a [sort] that ends leaves a permutation of the
    chain in which no node is above its successor, and the same counter; and
    on a chain that is already so, [sort] makes one pass and changes
    nothing. *)
Theorem sort_partial_and_fixed (self : LinkedList A) (fuel : nat) :
  (forall self',
     sort A gtb fuel self = Some self' ->
     Permutation (head A self) (head A self')
     /\ ascending gtb (head A self')
     /\ size A self' = size A self)
  /\ (ascending gtb (head A self) -> sort A gtb (S fuel) self = Some self).
Proof.
  split.
  - intros self'. unfold sort. destruct self as [h s]. cbn [head size].
    destruct h as [|x [|y next]].
    + intros H. inversion H. cbn [head size]. repeat split; [reflexivity | constructor].
    + intros H. inversion H. cbn [head size].
      repeat split; [reflexivity | repeat constructor].
    + destruct (sort_loop A gtb fuel x (y :: next)) as [chain|] eqn:E; [| discriminate].
      intros H. inversion H. cbn [head size].
      destruct (sort_loop_sound _ _ _ _ E). auto.
  - intros H. unfold sort. destruct self as [h s]. cbn [head size] in *.
    destruct h as [|x [|y next]]; try reflexivity.
    cbn [sort_loop]. now rewrite (bubble_fixed _ _ H).
Qed.

Section Asymmetric.

Hypothesis gtb_asym : forall x y, gtb x y = true -> gtb y x = false.

(** A pass never adds a pair out of order, and removes one when it swaps. *)
Lemma bubble_inversions (next : list A) :
  forall x,
    (inversions gtb (fst (bubble A gtb x next)) <= inversions gtb (x :: next))%nat
    /\ (snd (bubble A gtb x next) = true ->
        (inversions gtb (fst (bubble A gtb x next)) < inversions gtb (x :: next))%nat).
Proof.
  induction next as [|y rest IH]; intros x.
  - simpl. split; [lia | discriminate].
  - cbn [bubble]. destruct (gtb x y) eqn:E; cbn [fst snd].
    + destruct (IH x) as [Hle _].
      pose proof (count_above_permutation y _ _ (bubble_permutation rest x)) as Hc.
      cbn [inversions count_above] in *. rewrite E, <- Hc, (gtb_asym _ _ E).
      split; [lia | intros _; lia].
    + destruct (IH y) as [Hle Hlt].
      pose proof (count_above_permutation x _ _ (bubble_permutation rest y)) as Hc.
      cbn [inversions count_above] in *. rewrite E in *. rewrite <- Hc.
      split; [lia | intros H; specialize (Hlt H); lia].
Qed.

Lemma sort_loop_returns (fuel : nat) :
  forall x next,
    (inversions gtb (x :: next) < fuel)%nat ->
    exists chain,
      sort_loop A gtb fuel x next = Some chain
      /\ Permutation (x :: next) chain /\ ascending gtb chain.
Proof.
  induction fuel as [|fuel IH]; intros x next Hlt; [lia |].
  cbn [sort_loop].
  pose proof (bubble_permutation next x) as Hp.
  pose proof (bubble_inversions next x) as [_ Hinv].
  pose proof (bubble_no_swap next x) as Hno.
  destruct (bubble_head next x) as (y & rest & Hh).
  destruct (bubble A gtb x next) as [chain swapped]. cbn [fst snd] in *.
  destruct swapped.
  - subst chain. specialize (Hinv eq_refl).
    destruct (IH y rest ltac:(lia)) as (chain & Hs & Hperm & Hasc).
    exists chain. split; [exact Hs |]. split; [| exact Hasc].
    now rewrite Hp.
  - destruct (Hno eq_refl) as [Hf Hasc]. exists chain.
    split; [reflexivity |]. split; [exact Hp |]. now rewrite Hf.
Qed.

Lemma sort_returns (self : LinkedList A) (fuel : nat) :
  (inversions gtb (head A self) < fuel)%nat ->
  exists chain,
    sort A gtb fuel self = Some {| head := chain; size := size A self |}
    /\ Permutation (head A self) chain /\ ascending gtb chain.
Proof.
  intros Hlt. unfold sort. destruct self as [h s]. cbn [head size] in *.
  destruct h as [|x [|y next]].
  - exists []. repeat split; [reflexivity | constructor].
  - exists [x]. repeat split; [reflexivity | repeat constructor].
  - destruct (sort_loop_returns fuel x (y :: next) Hlt) as (chain & Hs & Hp & Ha).
    rewrite Hs. eauto.
Qed.

(** X6: when [>] never holds both ways, [sort] ends: once the fuel exceeds
    the number of pairs out of order, it returns a list with the same
    counter whose chain is a permutation of the old one in which no node is
    above its successor. *)
Theorem sort_sorts (self : LinkedList A) (fuel : nat) :
  (inversions gtb (head A self) < fuel)%nat ->
  exists self',
    sort A gtb fuel self = Some self'
    /\ Permutation (head A self) (head A self')
    /\ ascending gtb (head A self')
    /\ size A self' = size A self.
Proof.
  intros Hlt. destruct (sort_returns self fuel Hlt) as (chain & Hs & Hp & Ha).
  eexists. split; [exact Hs |]. cbn [head size]. auto.
Qed.

End Asymmetric.

(** *** [remove_duplicates] *)

Lemma remove_repeats_head (next : list A) :
  forall x, exists rest, fst (remove_repeats A eqb x next) = x :: rest.
Proof.
  induction next as [|y rest IH]; intros x; cbn [remove_repeats];
    [cbn [fst]; eauto |].
  destruct (eqb x y); cbn [fst]; [apply IH | eauto].
Qed.

Lemma remove_repeats_no_repeat (next : list A) :
  forall x, no_repeat eqb (fst (remove_repeats A eqb x next)).
Proof.
  unfold no_repeat.
  induction next as [|y rest IH]; intros x; cbn [remove_repeats].
  - repeat constructor.
  - destruct (eqb x y) eqn:E; cbn [fst]; [apply IH |].
    destruct (remove_repeats_head rest y) as (r & Hr).
    constructor; [apply IH |]. rewrite Hr. constructor. exact E.
Qed.

Lemma remove_repeats_incl (next : list A) :
  forall x z, In z (fst (remove_repeats A eqb x next)) -> In z (x :: next).
Proof.
  induction next as [|y rest IH]; intros x z; cbn [remove_repeats]; [auto |].
  destruct (eqb x y); cbn [fst].
  - intros H. destruct (IH x z H) as [<-|Hz]; simpl; auto.
  - intros [<-|H]; [simpl; auto |]. right. now apply IH.
Qed.

(** A chain without equal neighbours is left as it is. *)
Lemma remove_repeats_fixed (next : list A) :
  forall x,
    no_repeat eqb (x :: next) ->
    remove_repeats A eqb x next = (x :: next, 0).
Proof.
  unfold no_repeat.
  induction next as [|y rest IH]; intros x H; cbn [remove_repeats]; [reflexivity |].
  apply Sorted_inv in H. destruct H as [Hs Hh]. apply HdRel_inv in Hh.
  rewrite Hh, (IH y Hs). reflexivity.
Qed.

Lemma remove_duplicates_fixed (self : LinkedList A) :
  no_repeat eqb (head A self) ->
  remove_duplicates A eqb self = (Ok tt, self).
Proof.
  intros H. unfold remove_duplicates, bind, get, put, ret.
  destruct self as [h s]. cbn [head size] in *.
  destruct h as [|x [|y next]]; try reflexivity.
  rewrite (remove_repeats_fixed _ _ H). cbn [fst snd]. now rewrite Z.sub_0_r.
Qed.

(** The chain [remove_duplicates] leaves. *)
Lemma remove_duplicates_head (self : LinkedList A) :
  head A (snd (remove_duplicates A eqb self))
  = match head A self with
    | [] => []
    | x :: next => fst (remove_repeats A eqb x next)
    end.
Proof.
  unfold remove_duplicates, bind, get, put, ret.
  destruct (head A self) as [|x [|y next]] eqn:Eh; cbn [fst snd head];
    rewrite ?Eh; reflexivity.
Qed.

(** X7: [remove_duplicates] removes repeats, not duplicates: it changes
    nothing exactly when no two neighbours are equal, whatever equal data the
    list holds further apart; and what it leaves never has two equal
    neighbours. *)
Theorem remove_duplicates_keeps_distant (self : LinkedList A) :
  (no_repeat eqb (head A self) <-> snd (remove_duplicates A eqb self) = self)
  /\ no_repeat eqb (head A (snd (remove_duplicates A eqb self))).
Proof.
  assert (H : no_repeat eqb (head A (snd (remove_duplicates A eqb self)))).
  { rewrite remove_duplicates_head.
    destruct (head A self) as [|x next]; [constructor | apply remove_repeats_no_repeat]. }
  split; [| exact H]. split.
  - intros Hn. now rewrite remove_duplicates_fixed.
  - intros He. now rewrite He in H.
Qed.

Section Equality.

Hypothesis eqb_eq : forall x y, eqb x y = true -> x = y.

Lemma remove_repeats_In (next : list A) :
  forall x z, In z (x :: next) -> In z (fst (remove_repeats A eqb x next)).
Proof.
  induction next as [|y rest IH]; intros x z; cbn [remove_repeats]; [auto |].
  destruct (eqb x y) eqn:E; cbn [fst].
  - apply eqb_eq in E. subst y. intros [<-|[<-|H]]; apply IH; simpl; auto.
  - intros [<-|H]; [simpl; auto |]. right. now apply IH.
Qed.

(** X8: when [==] holds only between equal data, [remove_duplicates] loses
    no data: every data of the list is still in it, and nothing else is; and
    a second call changes nothing. *)
Theorem remove_duplicates_keeps_data (self : LinkedList A) :
  let self' := snd (remove_duplicates A eqb self) in
  (forall z, In z (head A self') <-> In z (head A self))
  /\ remove_duplicates A eqb self' = (Ok tt, self').
Proof.
  cbv zeta. split.
  - rewrite remove_duplicates_head.
    destruct (head A self) as [|x next]; [intros z; reflexivity |].
    intros z. split; [apply remove_repeats_incl | apply remove_repeats_In].
  - apply remove_duplicates_fixed. rewrite remove_duplicates_head.
    destruct (head A self) as [|x next]; [constructor | apply remove_repeats_no_repeat].
Qed.

End Equality.

(** *** [find_middle] *)

Lemma middle_loop_spec (n : nat) :
  forall fast slow : list A,
    (length fast <= n)%nat -> (length fast <= length slow)%nat -> slow <> [] ->
    exists x,
      middle_loop A slow fast = Ok x
      /\ nth_error slow (length fast / 2) = Some x.
Proof.
  induction n as [|n IH]; intros fast slow Hn Hle Hne.
  - destruct fast; [| simpl in Hn; lia].
    destruct slow as [|x slow]; [congruence |]. exists x. split; reflexivity.
  - destruct fast as [|a [|b fast]].
    + destruct slow as [|x slow]; [congruence |]. exists x. split; reflexivity.
    + destruct slow as [|x slow]; [congruence |]. exists x. split; reflexivity.
    + destruct slow as [|x slow]; [congruence |].
      cbn [middle_loop]. cbn [length] in *.
      destruct (IH fast slow ltac:(lia) ltac:(lia)) as (y & Hy & Hnth).
      { destruct slow; [simpl in Hle; lia | congruence]. }
      exists y. split; [exact Hy |].
      replace (S (S (length fast)) / 2)%nat with (S (length fast / 2)).
      * exact Hnth.
      * change (S (S (length fast))) with (2 + length fast)%nat.
        replace (2 + length fast)%nat with (length fast + 1 * 2)%nat by lia.
        rewrite Nat.div_add by lia. lia.
Qed.

(** X9: [find_middle] never fails and changes nothing; it returns [None] on
    an empty list and otherwise the data of the node at index [n / 2]
    (integer division) of a chain of [n] nodes, the second of the two middle
    nodes when [n] is even. *)
Theorem find_middle_index (self : LinkedList A) :
  find_middle A self
  = (Ok (nth_error (head A self) (length (head A self) / 2)), self).
Proof.
  unfold find_middle, bind, get, lift, ret.
  destruct (head A self) as [|x next] eqn:Eh; [reflexivity |].
  destruct (middle_loop_spec (length (x :: next)) (x :: next) (x :: next)
              ltac:(lia) ltac:(lia) ltac:(congruence)) as (y & Hy & Hn).
  now rewrite Hy, Hn.
Qed.

(** *** [sort] followed by [remove_duplicates] *)

Lemma remove_repeats_strongly_sorted (R : A -> A -> Prop) (next : list A) :
  forall x,
    StronglySorted R (x :: next) ->
    StronglySorted R (fst (remove_repeats A eqb x next)).
Proof.
  induction next as [|y rest IH]; intros x H; cbn [remove_repeats]; [exact H |].
  apply StronglySorted_inv in H. destruct H as [Hs Hf].
  destruct (eqb x y); cbn [fst].
  - apply IH. apply StronglySorted_inv in Hs. destruct Hs as [Hs' _].
    constructor; [exact Hs' | now inversion Hf].
  - constructor; [now apply IH |].
    rewrite Forall_forall in *. intros z Hz. apply Hf.
    now apply remove_repeats_incl.
Qed.

Section Order.

Hypothesis gtb_asym : forall x y, gtb x y = true -> gtb y x = false.
Hypothesis gtb_trans :
  forall x y z, gtb x y = false -> gtb y z = false -> gtb x z = false.
Hypothesis gtb_antisym : forall x y, gtb x y = false -> gtb y x = false -> x = y.
Hypothesis eqb_spec : forall x y, eqb x y = true <-> x = y.

Lemma ascending_no_repeat_NoDup (chain : list A) :
  StronglySorted (fun x y => gtb x y = false) chain ->
  no_repeat eqb chain -> NoDup chain.
Proof.
  unfold no_repeat. induction chain as [|x rest IH]; intros Hs Hn; [constructor |].
  apply StronglySorted_inv in Hs. destruct Hs as [Hs Hf].
  apply Sorted_inv in Hn. destruct Hn as [Hn Hh].
  constructor; [| now apply IH].
  destruct rest as [|y rest']; [intros [] |].
  apply HdRel_inv in Hh. intros Hin.
  assert (Hxy : gtb x y = false) by (now inversion Hf).
  assert (Hyx : gtb y x = false).
  { destruct Hin as [->|Hin]; [exact Hxy |].
    apply StronglySorted_inv in Hs. destruct Hs as [_ Hfy].
    rewrite Forall_forall in Hfy. now apply Hfy. }
  pose proof (gtb_antisym _ _ Hxy Hyx) as Heq. apply eqb_spec in Heq. congruence.
Qed.

(** X10: for an order ([>] asymmetric, its negation transitive and
    antisymmetric, [==] the equality), [sort] followed by
    [remove_duplicates] leaves a chain without duplicates, in order, that
    holds exactly the data the list held. *)
Theorem sort_then_remove_duplicates (self : LinkedList A) (fuel : nat) :
  (inversions gtb (head A self) < fuel)%nat ->
  exists sorted,
    sort A gtb fuel self = Some sorted
    /\ NoDup (head A (snd (remove_duplicates A eqb sorted)))
    /\ ascending gtb (head A (snd (remove_duplicates A eqb sorted)))
    /\ forall z, In z (head A (snd (remove_duplicates A eqb sorted)))
                 <-> In z (head A self).
Proof.
  intros Hlt.
  destruct (sort_returns gtb_asym self fuel Hlt) as (chain & Hs & Hp & Ha).
  eexists. split; [exact Hs |].
  rewrite remove_duplicates_head. cbn [head].
  assert (Ht : StronglySorted (fun x y => gtb x y = false) chain).
  { apply Sorted_StronglySorted; [| exact Ha]. intros x y z. apply gtb_trans. }
  destruct chain as [|x next].
  - split; [constructor |]. split; [constructor |].
    intros z. split; [intros [] | apply (Permutation_in _ Hp)].
  - assert (Hss := remove_repeats_strongly_sorted _ next x Ht).
    split; [apply ascending_no_repeat_NoDup;
            [exact Hss | apply remove_repeats_no_repeat] |].
    split; [now apply StronglySorted_Sorted |].
    intros z. split.
    + intros Hz. apply remove_repeats_incl in Hz.
      apply (Permutation_in _ (Permutation_sym Hp) Hz).
    + intros Hz. apply remove_repeats_In; [intros a b; apply eqb_spec |].
      apply (Permutation_in _ Hp Hz).
Qed.

End Order.

(** *** [merge_sorted_lists] *)

Lemma append_all_eq (current : list A) :
  forall merged,
    append_all A current merged
    = {| head := head A merged ++ current;
         size := size A merged + Z.of_nat (length current) |}.
Proof.
  unfold append_all.
  induction current as [|x rest IH]; intros [h s]; cbn [fold_left head size length].
  - now rewrite app_nil_r, Z.add_0_r.
  - rewrite IH. cbn [insert_at_end bind get put snd head size].
    rewrite <- app_assoc, Nat2Z.inj_succ. f_equal. lia.
Qed.

Lemma merge_loop_eq (current1 : list A) :
  forall current2 merged,
    merge_loop A leb current1 current2 merged
    = {| head := head A merged ++ merged_chain leb current1 current2;
         size := size A merged
                 + Z.of_nat (length (merged_chain leb current1 current2)) |}.
Proof.
  induction current1 as [|x next1 IH1]; intros current2 merged.
  - destruct current2; cbn [merge_loop merged_chain]; rewrite !append_all_eq;
      cbn [head size length app]; rewrite ?app_nil_r, ?Z.add_0_r; reflexivity.
  - induction current2 as [|y next2 IH2] in merged |- *.
    + cbn [merge_loop merged_chain]. rewrite !append_all_eq.
      cbn [head size length app]. now rewrite !app_nil_r, Z.add_0_r.
    + cbn [merge_loop merged_chain]. destruct (leb x y).
      * rewrite IH1. cbn [insert_at_end bind get put snd head size length].
        rewrite <- app_assoc, Nat2Z.inj_succ. f_equal. lia.
      * rewrite IH2. cbn [insert_at_end bind get put snd head size length].
        change ((fix merged_right (chain2 : list A) : list A :=
                   match chain2 with
                   | [] => (x :: next1) ++ chain2
                   | y0 :: next3 =>
                       if leb x y0 then x :: merged_chain leb next1 chain2
                       else y0 :: merged_right next3
                   end) next2)
          with (merged_chain leb (x :: next1) next2).
        rewrite <- app_assoc, Nat2Z.inj_succ. f_equal. lia.
Qed.

Lemma merged_chain_permutation (chain1 : list A) :
  forall chain2, Permutation (chain1 ++ chain2) (merged_chain leb chain1 chain2).
Proof.
  induction chain1 as [|x next1 IH1]; intros chain2.
  - destruct chain2; reflexivity.
  - induction chain2 as [|y next2 IH2].
    + reflexivity.
    + cbn [merged_chain]. destruct (leb x y).
      * cbn [app]. apply perm_skip, IH1.
      * rewrite <- IH2. symmetry. apply (Permutation_cons_app (x :: next1) next2 y).
        reflexivity.
Qed.

Section Total.

Hypothesis leb_total : forall x y, leb x y = false -> leb y x = true.

Lemma merged_chain_sorted (chain1 : list A) :
  forall chain2,
    Sorted (fun x y => leb x y = true) chain1 ->
    Sorted (fun x y => leb x y = true) chain2 ->
    Sorted (fun x y => leb x y = true) (merged_chain leb chain1 chain2)
    /\ forall a, HdRel (fun x y => leb x y = true) a chain1 ->
                 HdRel (fun x y => leb x y = true) a chain2 ->
                 HdRel (fun x y => leb x y = true) a (merged_chain leb chain1 chain2).
Proof.
  induction chain1 as [|x next1 IH1]; intros chain2 H1 H2.
  - destruct chain2; cbn [merged_chain app]; auto.
  - induction chain2 as [|y next2 IH2].
    + cbn [merged_chain]. rewrite app_nil_r. auto.
    + cbn [merged_chain]. destruct (leb x y) eqn:E.
      * apply Sorted_inv in H1. destruct H1 as [H1 Hh1].
        destruct (IH1 (y :: next2) H1 H2) as [Hs Hh].
        split; [| intros a Ha _; constructor; now apply HdRel_inv in Ha].
        constructor; [exact Hs |]. apply Hh; [exact Hh1 | constructor; exact E].
      * pose proof H2 as H2'. apply Sorted_inv in H2'. destruct H2' as [H2' Hh2].
        destruct (IH2 H2') as [Hs Hh].
        split; [| intros a _ Ha; constructor; now apply HdRel_inv in Ha].
        constructor; [exact Hs |].
        apply Hh; [constructor; now apply leb_total | exact Hh2].
Qed.

(** X11: when [<=] is total, [merge_sorted_lists] of two lists whose chains
    are in order returns a list whose chain is in order and is a permutation
    of the two chains together, and whose counter is the number of its
    nodes, whatever the counters of the two lists were. *)
Theorem merge_sorted_lists_merges (list1 list2 : LinkedList A) :
  Sorted (fun x y => leb x y = true) (head A list1) ->
  Sorted (fun x y => leb x y = true) (head A list2) ->
  let merged := merge_sorted_lists A leb list1 list2 in
  Sorted (fun x y => leb x y = true) (head A merged)
  /\ Permutation (head A list1 ++ head A list2) (head A merged)
  /\ size A merged = Z.of_nat (length (head A list1) + length (head A list2)).
Proof.
  intros H1 H2. cbv zeta. unfold merge_sorted_lists. rewrite merge_loop_eq.
  cbn [head size empty app].
  split; [now apply merged_chain_sorted |].
  split; [apply merged_chain_permutation |].
  rewrite <- (Permutation_length (merged_chain_permutation _ _)), length_app. lia.
Qed.

End Total.

(** *** Insertion, lookup and deletion at a position *)

(** X12: on a list whose counter agrees with its chain, after
    [insert_at_position data position] with a position in range,
    [get_element_at_position position] returns [data], and
    [delete_by_position position] returns [data] and gives the list back as
    it was before the insertion. *)
Theorem insert_then_get_and_delete (self : LinkedList A) (data : A) (position : Z) :
  well_formed A self -> 0 <= position <= size A self ->
  let self' := snd (insert_at_position A data position self) in
  get_element_at_position A position self' = (Ok data, self')
  /\ delete_by_position A position self' = (Ok data, self).
Proof.
  intros Hwf Hr. cbv zeta.
  destruct (insert_at_position_returns A self data position Hwf Hr)
    as (self' & Hi & Hh & Hwf').
  rewrite Hi. cbn [snd].
  assert (Hlen : length (firstn (Z.to_nat position) (head A self)) = Z.to_nat position)
    by (apply firstn_length_le; unfold well_formed in Hwf; lia).
  assert (Hsize : size A self' = size A self + 1).
  { unfold well_formed in *. rewrite Hwf', Hh, length_app. cbn [length].
    rewrite Hlen, length_skipn, Hwf. lia. }
  assert (Hnth : nth_error (head A self') (Z.to_nat position) = Some data).
  { rewrite Hh, nth_error_app2, Hlen, Nat.sub_diag by lia. reflexivity. }
  split.
  - destruct (get_element_at_position_returns A self' position Hwf' ltac:(lia))
      as (x & Hg & Hx).
    rewrite Hg. congruence.
  - destruct (delete_by_position_returns A self' position Hwf' ltac:(lia))
      as (x & self'' & Hd & Hx & Hh'' & Hwf'').
    rewrite Hd. f_equal; [congruence |].
    assert (Hhead : head A self'' = head A self).
    { rewrite Hh'', Hh.
      replace (S (Z.to_nat position))
        with (length (firstn (Z.to_nat position) (head A self) ++ [data]))
        by (rewrite length_app, Hlen; simpl; lia).
      rewrite firstn_app, Hlen, Nat.sub_diag, firstn_firstn, Nat.min_id. cbn [firstn].
      rewrite app_nil_r.
      replace (firstn (Z.to_nat position) (head A self)
               ++ data :: skipn (Z.to_nat position) (head A self))
        with ((firstn (Z.to_nat position) (head A self) ++ [data])
              ++ skipn (Z.to_nat position) (head A self))
        by (now rewrite <- app_assoc).
      rewrite skipn_app, skipn_all, Nat.sub_diag. cbn [skipn app].
      apply firstn_skipn. }
    destruct self'' as [h'' s'']. destruct self as [h s].
    unfold well_formed in *. cbn [head size] in *. subst h''. congruence.
Qed.

(** X13: on a list whose counter agrees with its chain,
    [insert_at_position] at position [size] does what [insert_at_end] does,
    and at position 0 what [insert_at_beginning] does. *)
Theorem insert_at_position_ends (self : LinkedList A) (data : A) :
  well_formed A self ->
  insert_at_position A data (size A self) self = insert_at_end A data self
  /\ insert_at_position A data 0 self = insert_at_beginning A data self.
Proof.
  intros Hwf. split.
  - destruct (insert_at_position_returns A self data (size A self) Hwf)
      as (self' & Hi & Hh & Hwf'); [unfold well_formed in Hwf; lia |].
    rewrite Hi. unfold insert_at_end, bind, get, put. f_equal.
    unfold well_formed in *.
    replace (Z.to_nat (size A self)) with (length (head A self)) in Hh by lia.
    rewrite firstn_all, skipn_all in Hh.
    destruct self' as [h' s']. cbn [head size] in *. subst h'. f_equal.
    rewrite Hwf', length_app, Hwf. simpl. lia.
  - unfold insert_at_position, bind, get, raise.
    destruct (Z.ltb_spec (size A self) 0); [unfold well_formed in Hwf; lia |].
    reflexivity.
Qed.

(** X15: on a list whose counter agrees with its chain, inserting back at
    the same position what [delete_by_position] returned gives the list as it
    was before the deletion. *)
Theorem delete_then_insert (self : LinkedList A) (position : Z) :
  well_formed A self -> 0 <= position < size A self ->
  exists data self',
    delete_by_position A position self = (Ok data, self')
    /\ insert_at_position A data position self' = (Ok tt, self).
Proof.
  intros Hwf Hr.
  destruct (delete_by_position_returns A self position Hwf Hr)
    as (data & self' & Hd & Hn & Hh & Hwf').
  exists data, self'. split; [exact Hd |].
  assert (Hlt : (Z.to_nat position < length (head A self))%nat)
    by (unfold well_formed in Hwf; lia).
  assert (Hlen : length (firstn (Z.to_nat position) (head A self)) = Z.to_nat position)
    by (apply firstn_length_le; lia).
  assert (Hsize : size A self' = size A self - 1).
  { unfold well_formed in *. rewrite Hwf', Hh, length_app, Hlen, length_skipn, Hwf. lia. }
  destruct (insert_at_position_returns A self' data position Hwf' ltac:(lia))
    as (self'' & Hi & Hh'' & Hwf'').
  rewrite Hi. f_equal.
  assert (Hhead : head A self'' = head A self).
  { rewrite Hh'', Hh.
    rewrite firstn_app, Hlen, Nat.sub_diag, firstn_firstn, Nat.min_id. cbn [firstn].
    rewrite app_nil_r, skipn_app, Hlen, Nat.sub_diag, skipn_all2 by (rewrite Hlen; lia).
    cbn [skipn app]. now apply firstn_skipn_middle. }
  destruct self'' as [h'' s'']. destruct self as [h s].
  unfold well_formed in *. cbn [head size] in *. subst h''. congruence.
Qed.

(** X16: on a list whose counter agrees with its chain, after [reverse] the
    element at position [i] is the one that was at position
    [size - 1 - i]. *)
Theorem reverse_then_get (self : LinkedList A) (position : Z) :
  well_formed A self -> 0 <= position < size A self ->
  fst (get_element_at_position A position (snd (reverse A self)))
  = fst (get_element_at_position A (size A self - 1 - position) self).
Proof.
  intros Hwf Hr.
  assert (Hrev : snd (reverse A self) = {| head := rev (head A self); size := size A self |}).
  { unfold reverse, bind, get, put, ret. destruct self as [h s]. cbn [head size].
    destruct h as [|x [|y next]]; cbn [fst snd]; try reflexivity.
    now rewrite reverse_loop_rev, app_nil_r. }
  rewrite Hrev.
  assert (Hwf' : well_formed A {| head := rev (head A self); size := size A self |})
    by (unfold well_formed in *; cbn [head size]; now rewrite length_rev).
  destruct (get_element_at_position_returns A _ position Hwf' Hr) as (x & Hg & Hx).
  destruct (get_element_at_position_returns A self (size A self - 1 - position) Hwf
              ltac:(lia)) as (y & Hg' & Hy).
  rewrite Hg, Hg'. cbn [fst head] in *. f_equal.
  rewrite nth_error_rev in Hx. unfold well_formed in Hwf.
  destruct (Nat.ltb_spec (Z.to_nat position) (length (head A self))); [| lia].
  replace (length (head A self) - S (Z.to_nat position))%nat
    with (Z.to_nat (size A self - 1 - position)) in Hx by lia.
  congruence.
Qed.

End Facts.

(** *** The properties on lists of integers *)

Lemma Zgtb_asym (x y : Z) : (x >? y) = true -> (y >? x) = false.
Proof. rewrite !Z.gtb_ltb, Z.ltb_lt, Z.ltb_ge. lia. Qed.

Lemma Zgtb_trans (x y z : Z) : (x >? y) = false -> (y >? z) = false -> (x >? z) = false.
Proof. rewrite !Z.gtb_ltb, !Z.ltb_ge. lia. Qed.

Lemma Zgtb_antisym (x y : Z) : (x >? y) = false -> (y >? x) = false -> x = y.
Proof. rewrite !Z.gtb_ltb, !Z.ltb_ge. lia. Qed.

Lemma Zleb_total (x y : Z) : (x <=? y) = false -> (y <=? x) = true.
Proof. rewrite Z.leb_gt, Z.leb_le. lia. Qed.

Lemma Zeqb_eq (x y : Z) : (x =? y) = true -> x = y.
Proof. apply Z.eqb_eq. Qed.

(** In 3, 1, 2, 1 the data 2 is found at index 2. *)
Lemma search_then_get_witness :
  exists x, get_element_at_position Z 2 numbers = (Ok x, numbers) /\ (x =? 2) = true.
Proof.
  apply (search_then_get Z Z.eqb numbers 2 2); [reflexivity | reflexivity | discriminate].
Defined.

(** Deleting 1 from 3, 1, 2, 1 is deleting at index 1. *)
Lemma delete_by_value_deletes_found_witness :
  exists i : Z,
    fst (search Z Z.eqb 1 numbers) = Ok i
    /\ ((i = -1 /\ delete_by_value Z Z.eqb 1 numbers = (Ok false, numbers))
        \/ (i <> -1
            /\ fst (delete_by_value Z Z.eqb 1 numbers) = Ok true
            /\ exists x,
                 delete_by_position Z i numbers
                 = (Ok x, snd (delete_by_value Z Z.eqb 1 numbers))
                 /\ (x =? 1) = true)).
Proof. apply (delete_by_value_deletes_found Z Z.eqb numbers 1). reflexivity. Defined.

(** 3, 1, 2, 1 has four pairs out of order: five passes are enough. *)
Lemma sort_sorts_witness :
  exists self',
    sort Z Z.gtb 5 numbers = Some self'
    /\ Permutation (head Z numbers) (head Z self')
    /\ ascending Z.gtb (head Z self')
    /\ size Z self' = size Z numbers.
Proof. apply (sort_sorts Z Z.gtb Zgtb_asym numbers 5). simpl. lia. Defined.

(** 3, 1, 2, 1 keeps its two 1s, which are not neighbours. *)
Lemma remove_duplicates_keeps_data_witness :
  (forall z, In z (head Z (snd (remove_duplicates Z Z.eqb numbers)))
             <-> In z (head Z numbers))
  /\ remove_duplicates Z Z.eqb (snd (remove_duplicates Z Z.eqb numbers))
     = (Ok tt, snd (remove_duplicates Z Z.eqb numbers)).
Proof. exact (remove_duplicates_keeps_data Z Z.eqb Zeqb_eq numbers). Defined.

(** Sorted and then deduplicated, 3, 1, 2, 1 holds each data once. *)
Lemma sort_then_remove_duplicates_witness :
  exists sorted,
    sort Z Z.gtb 5 numbers = Some sorted
    /\ NoDup (head Z (snd (remove_duplicates Z Z.eqb sorted)))
    /\ ascending Z.gtb (head Z (snd (remove_duplicates Z Z.eqb sorted)))
    /\ forall z, In z (head Z (snd (remove_duplicates Z Z.eqb sorted)))
                 <-> In z (head Z numbers).
Proof.
  apply (sort_then_remove_duplicates Z Z.eqb Z.gtb
           Zgtb_asym Zgtb_trans Zgtb_antisym Z.eqb_eq numbers 5).
  simpl. lia.
Defined.

(** The merge of the demonstration: 1, 3, 5 with 2, 4, 6. *)
Lemma merge_sorted_lists_merges_witness :
  Sorted (fun x y => (x <=? y) = true) (head Z (merge_sorted_lists Z Z.leb odds evens))
  /\ Permutation (head Z odds ++ head Z evens)
       (head Z (merge_sorted_lists Z Z.leb odds evens))
  /\ size Z (merge_sorted_lists Z Z.leb odds evens)
     = Z.of_nat (length (head Z odds) + length (head Z evens)).
Proof.
  apply (merge_sorted_lists_merges Z Z.leb Zleb_total odds evens);
    repeat constructor.
Defined.

(** 7 inserted at position 2 of 3, 1, 2, 1 is found and deleted there. *)
Lemma insert_then_get_and_delete_witness :
  get_element_at_position Z 2 (snd (insert_at_position Z 7 2 numbers))
  = (Ok 7, snd (insert_at_position Z 7 2 numbers))
  /\ delete_by_position Z 2 (snd (insert_at_position Z 7 2 numbers)) = (Ok 7, numbers).
Proof.
  apply (insert_then_get_and_delete Z numbers 7 2); [reflexivity | simpl; lia].
Defined.

Lemma insert_at_position_ends_witness :
  insert_at_position Z 7 (size Z numbers) numbers = insert_at_end Z 7 numbers
  /\ insert_at_position Z 7 0 numbers = insert_at_beginning Z 7 numbers.
Proof. apply (insert_at_position_ends Z numbers 7). reflexivity. Defined.

Lemma delete_then_insert_witness :
  exists data self',
    delete_by_position Z 2 numbers = (Ok data, self')
    /\ insert_at_position Z data 2 self' = (Ok tt, numbers).
Proof. apply (delete_then_insert Z numbers 2); [reflexivity | simpl; lia]. Defined.

Lemma reverse_then_get_witness :
  fst (get_element_at_position Z 0 (snd (reverse Z numbers)))
  = fst (get_element_at_position Z (size Z numbers - 1 - 0) numbers).
Proof. apply (reverse_then_get Z numbers 0); [reflexivity | simpl; lia]. Defined.

End LinkedListMethods.
